(** * HSK1 content pipeline: segmentation, correction, extraction

    A shallow embedding of the Python scripts under [content/hsk1]:
    [structure_chapters.py], [correct_chapters.py], [extract_vocabulary.py]
    and [extract_atoms.py], followed by the properties of the pipeline.

    Python values are modelled as follows.
    - [str] is a list of Unicode code points ([N]); literals are written as
      UTF-8 text and decoded by [u].
    - [int] is [Z].
    - [dict] keyed by lesson number is [gmap Z _]; a [set] of words is
      [gset str].
    - [print] is an event appended to a log.
    - the thread pool is a map of finished futures together with the order in
      which [as_completed] yields them. *)

From Stdlib Require Import ZArith NArith List Ascii String Bool Lia.
From stdpp Require Import base option list gmap sorting.

Set Default Proof Using "Type".

(** ** Python strings *)

Module Py.

#[local] Open Scope N_scope.

Definition char := N.
Definition str := list N.

(** UTF-8 decoding, used only to write literals. *)
Fixpoint utf8_decode (bs : list N) : str :=
  match bs with
  | [] => []
  | b0 :: bs1 =>
    if (b0 <? 192)%N then b0 :: utf8_decode bs1
    else match bs1 with
    | [] => [b0]
    | b1 :: bs2 =>
      if (b0 <? 224)%N
      then ((b0 - 192) * 64 + (b1 - 128))%N :: utf8_decode bs2
      else match bs2 with
      | [] => [b0; b1]
      | b2 :: bs3 =>
        if (b0 <? 240)%N
        then ((b0 - 224) * 4096 + (b1 - 128) * 64 + (b2 - 128))%N
               :: utf8_decode bs3
        else match bs3 with
        | [] => [b0; b1; b2]
        | b3 :: bs4 =>
          ((b0 - 240) * 262144 + (b1 - 128) * 4096
           + (b2 - 128) * 64 + (b3 - 128))%N :: utf8_decode bs4
        end
      end
    end
  end.

Definition u (s : string) : str :=
  utf8_decode (map N_of_ascii (list_ascii_of_string s)).

(** A literal of one ASCII character. *)
Definition ch (a : ascii) : char := N_of_ascii a.

Definition chr_eqb (a b : char) : bool := N.eqb a b.

Definition in_range (lo hi c : char) : bool := (lo <=? c)%N && (c <=? hi)%N.

(** [str.isspace] on one code point, which is also the class [\s] of [re]
    for [str] patterns. *)
Definition isspace (c : char) : bool :=
  in_range 9 13 c || in_range 28 32 c || chr_eqb c 133 || chr_eqb c 160
  || chr_eqb c 5760 || in_range 8192 8202 c || chr_eqb c 8232
  || chr_eqb c 8233 || chr_eqb c 8239 || chr_eqb c 8287 || chr_eqb c 12288.

(** First code point of every block of ten decimal digits (general category
    Nd, Unicode 14); the five mathematical digit alphabets at 0x1D7CE are
    listed one by one. *)
Definition decimal_blocks : list N :=
  [ 48; 1632; 1776; 1984; 2406; 2534; 2662; 2790; 2918; 3046; 3174; 3302;
    3430; 3558; 3664; 3792; 3872; 4160; 4240; 6112; 6160; 6470; 6608; 6784;
    6800; 6992; 7088; 7232; 7248; 42528; 43216; 43264; 43472; 43504; 43600;
    44016; 65296; 66720; 68912; 69734; 69872; 69942; 70096; 70384; 70736;
    70864; 71248; 71360; 71472; 71904; 72016; 72784; 73040; 73120; 92768;
    92864; 93008; 120782; 120792; 120802; 120812; 120822; 123200; 123632;
    125264; 130032 ]%N.

(** The decimal value of a code point, when it is a decimal digit. *)
Definition decimal_value (c : char) : option Z :=
  match find (fun b => in_range b (b + 9) c) decimal_blocks with
  | Some b => Some (Z.of_N (c - b))
  | None => None
  end.

(** The class [\d]. *)
Definition isdecimal (c : char) : bool :=
  match decimal_value c with Some _ => true | None => false end.

(** [int(s)] for a string of decimal digits; [None] stands for
    [ValueError]. *)
Fixpoint int_digits (acc : Z) (s : str) : option Z :=
  match s with
  | [] => Some acc
  | c :: s' =>
    match decimal_value c with
    | Some d => int_digits (10 * acc + d) s'
    | None => None
    end
  end.

Definition int (s : str) : option Z :=
  match s with
  | [] => None
  | _ => int_digits 0 s
  end.

(** [s.strip()] removes leading and trailing white space. *)
Fixpoint lstrip (s : str) : str :=
  match s with
  | [] => []
  | c :: s' => if isspace c then lstrip s' else s
  end.

Definition rstrip (s : str) : str := rev (lstrip (rev s)).

Definition strip (s : str) : str := rstrip (lstrip s).

(** [sep.join(parts)]. *)
Fixpoint join (sep : str) (parts : list str) : str :=
  match parts with
  | [] => []
  | [p] => p
  | p :: ps => p ++ sep ++ join sep ps
  end.

(** [s.split(c)] for a separator of one code point: the pieces between the
    occurrences of [c], always at least one piece. *)
Fixpoint split_from (c : char) (cur : str) (s : str) : list str :=
  match s with
  | [] => [rev cur]
  | x :: s' =>
    if chr_eqb x c then rev cur :: split_from c [] s'
    else split_from c (x :: cur) s'
  end.

Definition split (c : char) (s : str) : list str := split_from c [] s.

(** [c in s] for one code point. *)
Definition contains (c : char) (s : str) : bool := existsb (chr_eqb c) s.

(** [s.startswith(c)] for one code point. *)
Definition startswith (c : char) (s : str) : bool :=
  match s with
  | x :: _ => chr_eqb x c
  | [] => false
  end.

(** [c * n]. *)
Definition repeat_chr (c : char) (n : nat) : str := repeat c n.

(** Truth value of a string: non-empty. *)
Definition truthy (s : str) : bool :=
  match s with [] => false | _ => true end.

Definition newline : char := 10.

(** What [f.read()] returns for a file opened in text mode whose stored
    text is [s]: the line endings CR LF and CR read as a newline.  (Text is
    stored as written, as on POSIX.) *)
Fixpoint read_text (s : str) : str :=
  match s with
  | [] => []
  | c :: s' =>
    if chr_eqb c 13 then
      newline :: match s' with
                 | d :: s'' => if chr_eqb d newline then read_text s''
                               else read_text s'
                 | [] => []
                 end
    else c :: read_text s'
  end.

Definition even_in (lo hi c : char) : bool := in_range lo hi c && N.even c.
Definition odd_in (lo hi c : char) : bool := in_range lo hi c && N.odd c.

(** Simple lower-case mapping of one code point, as [re] uses it.  The
    tables cover Basic Latin, Latin-1 Supplement, Latin Extended-A, the
    pinyin vowels U+01CD..U+01DC and the Kelvin sign; other code points are
    left alone (none of them maps into the letters the patterns below
    name). *)
Definition tolower (c : char) : char :=
  if in_range 65 90 c then c + 32
  else if in_range 192 222 c && negb (chr_eqb c 215) then c + 32
  else if chr_eqb c 304 then 105
  else if chr_eqb c 376 then 255
  else if even_in 256 311 c || even_in 330 375 c then c + 1
  else if odd_in 313 328 c || odd_in 377 382 c || odd_in 461 476 c then c + 1
  else if chr_eqb c 8490 then 107
  else c.

(** Simple upper-case mapping of one code point, same coverage. *)
Definition toupper (c : char) : char :=
  if in_range 97 122 c then c - 32
  else if chr_eqb c 181 then 924
  else if in_range 224 254 c && negb (chr_eqb c 247) then c - 32
  else if chr_eqb c 255 then 376
  else if chr_eqb c 305 then 73
  else if chr_eqb c 383 then 83
  else if odd_in 256 311 c || odd_in 330 375 c then c - 1
  else if even_in 313 328 c || even_in 377 382 c || even_in 461 476 c
  then c - 1
  else c.

(** [s.lower()]: the full mapping differs from the simple one at U+0130,
    which becomes two code points. *)
Definition lower (s : str) : str :=
  flat_map (fun c => if chr_eqb c 304 then [105; 775] else [tolower c]) s.

(** [a < b] on strings: lexicographic by code point. *)
Fixpoint str_ltb (a b : str) : bool :=
  match a, b with
  | _, [] => false
  | [], _ :: _ => true
  | x :: a', y :: b' =>
    if (x <? y) then true else if (y <? x) then false else str_ltb a' b'
  end.

End Py.

(** ** The backtracking matcher of [re]

    Patterns are a small abstract syntax; [exec] is a backtracking matcher in
    continuation-passing style with the priorities of [re]: alternatives
    left to right, repetitions greedy. *)

Module Re.

Import Py.

Inductive regex : Type :=
| Eps
| Cls (p : char -> bool)
| Seq (r1 r2 : regex)
| Alt (r1 r2 : regex)
| Star (r : regex)
| Group (n : nat) (r : regex)
| Bol
| Eol.

Definition Plus (r : regex) : regex := Seq r (Star r).
Definition Opt (r : regex) : regex := Alt r Eps.
Definition Chr (c : char) : regex := Cls (chr_eqb c).

Fixpoint Seqs (rs : list regex) : regex :=
  match rs with
  | [] => Eps
  | [r] => r
  | r :: rs' => Seq r (Seqs rs')
  end.

Fixpoint Alts (rs : list regex) : regex :=
  match rs with
  | [] => Eps
  | [r] => r
  | r :: rs' => Alt r (Alts rs')
  end.

(** [\d], [\s], [\S], [.] *)
Definition digit : regex := Cls isdecimal.
Definition space : regex := Cls isspace.
Definition nonspace : regex := Cls (fun c => negb (isspace c)).
Definition dot : regex := Cls (fun c => negb (chr_eqb c newline)).

Record mstate : Type := MState {
  pos : nat;
  rest : str;
  groups : list (nat * str)
}.

Definition set_group (n : nat) (from : mstate) (to : mstate) : mstate :=
  MState (pos to) (rest to)
    ((n, take (pos to - pos from) (rest from))
       :: filter (fun g => negb (Nat.eqb (fst g) n)) (groups to)).

Definition at_end (s : str) : bool :=
  match s with
  | [] => true
  | [c] => chr_eqb c newline
  | _ => false
  end.

(** The loop of a greedy repetition: one more round of [body] as long as
    it consumes input, then the continuation. *)
Fixpoint star_loop {A : Type}
    (body : mstate -> (mstate -> option A) -> option A)
    (k : mstate -> option A) (fuel : nat) (st0 : mstate) : option A :=
  match fuel with
  | O => k st0
  | S fuel' =>
    match body st0 (fun st1 =>
            if (pos st0 <? pos st1)%nat then star_loop body k fuel' st1
            else None)
    with
    | Some a => Some a
    | None => k st0
    end
  end.

Fixpoint exec {A : Type} (r : regex) (st : mstate)
    (k : mstate -> option A) {struct r} : option A :=
  match r with
  | Eps => k st
  | Cls p =>
    match rest st with
    | c :: s' => if p c then k (MState (S (pos st)) s' (groups st)) else None
    | [] => None
    end
  | Seq r1 r2 => exec r1 st (fun st1 => exec r2 st1 k)
  | Alt r1 r2 =>
    match exec r1 st k with
    | Some a => Some a
    | None => exec r2 st k
    end
  | Star r1 => star_loop (exec r1) k (S (length (rest st))) st
  | Group n r1 => exec r1 st (fun st1 => k (set_group n st st1))
  | Bol => if Nat.eqb (pos st) 0 then k st else None
  | Eol => if at_end (rest st) then k st else None
  end.

(** [re.match(r, s)]: the groups of the match anchored at the start. *)
Definition rmatch (r : regex) (s : str) : option (list (nat * str)) :=
  exec r (MState 0 s []) (fun st => Some (groups st)).

(** [re.search(r, s)]: the leftmost match. *)
Fixpoint search_from (r : regex) (i : nat) (s : str)
    : option (list (nat * str)) :=
  match exec r (MState i s []) (fun st => Some (groups st)) with
  | Some g => Some g
  | None =>
    match s with
    | [] => None
    | _ :: s' => search_from r (S i) s'
    end
  end.

Definition search (r : regex) (s : str) : option (list (nat * str)) :=
  search_from r 0 s.

(** [m.group(n)] of a group that took part in the match. *)
Definition group (n : nat) (g : list (nat * str)) : str :=
  match find (fun e => Nat.eqb (fst e) n) g with
  | Some e => snd e
  | None => []
  end.

End Re.

(** ** structure_chapters.py *)

Import Py.

(** [re.search(r'(\d{2})-\d+', text)], then [int(match.group(1))]. *)
Definition lesson_marker : Re.regex :=
  Re.Seqs [Re.Group 1 (Re.Seq Re.digit Re.digit); Re.Chr (ch "-");
           Re.Plus Re.digit].

Definition extract_lesson_number (text : str) : option Z :=
  match Re.search lesson_marker text with
  | Some m => int (Re.group 1 m)
  | None => None
  end.

Record seg_state : Type := SegState {
  chapters : gmap Z str;
  current_lesson : Z;
  current_content : list str
}.

Definition seg_init : seg_state := SegState ∅ 0 [].

Definition sep2 : str := [newline; newline].

(** Save the lesson being accumulated:
    [if current_content and current_lesson > 0: chapters[...] = ...]. *)
Definition flush (st : seg_state) : gmap Z str :=
  match current_content st with
  | [] => chapters st
  | _ =>
    if (0 <? current_lesson st)%Z
    then <[current_lesson st := join sep2 (current_content st)]> (chapters st)
    else chapters st
  end.

(** [current_content.append(page_text.strip())] when the text is not blank. *)
Definition append_page (page_text : str) (content : list str) : list str :=
  if truthy (strip page_text) then content ++ [strip page_text] else content.

(** One turn of the loop of [structure_into_chapters]. *)
Definition structure_step (st : seg_state) (page_text : str) : seg_state :=
  match extract_lesson_number page_text with
  | Some lesson_num =>
    if negb (lesson_num =? 0)%Z && (lesson_num <=? 15)%Z
       && negb (lesson_num =? current_lesson st)%Z
    then SegState (flush st) lesson_num [strip page_text]
    else SegState (chapters st) (current_lesson st)
                  (append_page page_text (current_content st))
  | None =>
    SegState (chapters st) (current_lesson st)
             (append_page page_text (current_content st))
  end.

Definition structure_into_chapters (pages : list str) : gmap Z str :=
  flush (fold_left structure_step pages seg_init).

(** ** correct_chapters.py: the grouping loop of [extract_chapters_from_ocr] *)

Definition ocr_step (st : seg_state) (page_text : str) : seg_state :=
  match Re.search lesson_marker page_text with
  | Some m =>
    match int (Re.group 1 m) with
    | Some lesson_num =>
      if (lesson_num <=? 15)%Z && negb (lesson_num =? current_lesson st)%Z
      then SegState (flush st) lesson_num [strip page_text]
      else SegState (chapters st) (current_lesson st)
                    (append_page page_text (current_content st))
    | None => st
    end
  | None =>
    SegState (chapters st) (current_lesson st)
             (append_page page_text (current_content st))
  end.

Definition extract_chapters_from_ocr (pages : list str) : gmap Z str :=
  flush (fold_left ocr_step pages seg_init).

(** ** correct_chapters.py: the correction orchestrator *)

(** What the prompt template interpolates. *)
Record prompt : Type := Prompt {
  p_chapter : Z;
  p_numeral : str;
  p_context : str;
  p_content : str
}.

Definition chinese_nums : list str :=
  map u ["零"; "一"; "二"; "三"; "四"; "五"; "六"; "七"; "八"; "九"; "十";
         "十一"; "十二"; "十三"; "十四"; "十五"]%string.

(** [l[i]] with Python's negative indices; [None] stands for [IndexError]. *)
Definition py_index {A : Type} (l : list A) (i : Z) : option A :=
  if (0 <=? i)%Z then l !! Z.to_nat i
  else if (0 <=? Z.of_nat (length l) + i)%Z
  then l !! Z.to_nat (Z.of_nat (length l) + i)
  else None.

(** A finished future: the requests its task sent to the corrector, and its
    result ([None] when the task raised). *)
Record future : Type := Future {
  calls : list prompt;
  outcome : option (Z * str)
}.

Inductive event : Type :=
| Completed (num : Z) (chars : nat)
| Failed (chapter_num : Z)
| SkippingDuplicate (word : str) (chapter_num : Z).

Record batch : Type := Batch {
  results : gmap Z str;
  files : gmap Z str;
  log : list event;
  requests : list prompt
}.

Definition header : list str :=
  [ u "# HSK 1 - Chapters 1-15 (Corrected)" ++ [newline];
    u "# OCR errors fixed, formatting standardized" ++ [newline; newline] ].

Definition divider : str :=
  [newline] ++ repeat_chr (ch "=") 70 ++ [newline].

(** [combine_all_chapters]: [files] is the directory of per-lesson
    artifacts, the stored text of [chapter_NN.txt] under key [NN]; the
    result is the text of the combined file. *)
Definition combine_step (files : gmap Z str) (all_content : list str)
    (i : Z) : list str :=
  match files !! i with
  | Some stored => all_content ++ [divider; read_text stored; [newline]]
  | None => all_content
  end.

Definition combine_all_chapters (files : gmap Z str) : str :=
  join [newline] (fold_left (combine_step files) (seqZ 1 15) header).

Section Corrector.

(** [anthropic.Anthropic()]: [None] when the constructor raises, else the
    client, given by what [client.messages.create] followed by
    [response.content[0].text] returns on a prompt ([None] when either
    raises). *)
Variable Anthropic : option (prompt -> option str).

Definition correct_chapter_with_claude (chapter_num : Z)
    (chapter_content structure_context : str) : future :=
  match Anthropic with
  | None => Future [] None
  | Some messages_create =>
    match py_index chinese_nums chapter_num with
    | None => Future [] None
    | Some numeral =>
      let p := Prompt chapter_num numeral (take 4000 structure_context)
                      chapter_content in
      Future [p]
        match messages_create p with
        | Some text => Some (chapter_num, text)
        | None => None
        end
    end
  end.

(** Whether [f.write(s)] can encode [s] as UTF-8: a surrogate code point
    makes it raise [UnicodeEncodeError]. *)
Definition utf8_encodable (s : str) : bool :=
  forallb (fun c => negb (in_range 55296%N 57343%N c)) s.

(** The body of [for future in as_completed(future_to_chapter)].  The entry
    of [results] is assigned before the file is opened; [open(..., 'w')]
    leaves the file empty, and when [f.write] raises the line of the
    [except] branch is printed instead of the one of the [try]. *)
Definition collect (future_to_chapter : gmap Z future) (b : batch)
    (chapter_num : Z) : batch :=
  match future_to_chapter !! chapter_num with
  | None => b
  | Some f =>
    match outcome f with
    | Some (num, corrected_content) =>
      if utf8_encodable corrected_content then
        Batch (<[num := corrected_content]> (results b))
              (<[num := corrected_content]> (files b))
              (log b ++ [Completed num (length corrected_content)])
              (requests b)
      else
        Batch (<[num := corrected_content]> (results b))
              (<[num := []]> (files b))
              (log b ++ [Failed chapter_num])
              (requests b)
    | None =>
      Batch (results b) (files b) (log b ++ [Failed chapter_num])
            (requests b)
    end
  end.

(** [process_all_chapters_parallel]: [files] is the output directory before
    the run and [completion] the order in which the futures complete. *)
Definition process_all_chapters_parallel (chapters : gmap Z str)
    (structure_context : str) (files : gmap Z str) (completion : list Z)
    : batch :=
  let future_to_chapter :=
    map_imap (fun num content =>
      Some (correct_chapter_with_claude num content structure_context))
      chapters in
  let sent :=
    flat_map (fun nc =>
      calls (correct_chapter_with_claude (fst nc) (snd nc) structure_context))
      (map_to_list chapters) in
  fold_left (collect future_to_chapter) completion (Batch ∅ files [] sent).

(** [as_completed] yields every submitted future once. *)
Definition completion_order (chapters : gmap Z str) (completion : list Z)
    : Prop :=
  completion ≡ₚ elements (dom chapters).

End Corrector.

(** ** extract_vocabulary.py: the record parser *)

(** The dictionary built by [parse_vocab_line]. *)
Record parsed : Type := Parsed {
  word : str;
  pinyin : str;
  part_of_speech : str;
  meaning : str
}.

(** A record of the output list: the parsed fields with the keys added
    afterwards ([tag] only by the atom extractor). *)
Record entry : Type := Entry {
  fields : parsed;
  chapter : Z;
  source : str;
  tag : option str
}.

Definition POS_MAPPING : list (str * str) :=
  map (fun kv => (u (fst kv), u (snd kv)))
    [ ("pron.", "pronoun"); ("pron", "pronoun");
      ("adj.", "adjective"); ("adj", "adjective");
      ("v.", "verb"); ("verb", "verb");
      ("n.", "noun"); ("noun", "noun");
      ("adv.", "adverb"); ("adv", "adverb");
      ("prep.", "preposition"); ("prep", "preposition");
      ("conj.", "conjunction"); ("conj", "conjunction");
      ("part.", "particle"); ("particle", "particle");
      ("num.", "numeral"); ("numeral", "numeral");
      ("m.", "measure_word"); ("mw.", "measure_word");
      ("measure word", "measure_word");
      ("interj.", "interjection"); ("interj", "interjection") ]%string.

(** [d.get(key, default)] on a dictionary literal. *)
Definition dict_get (d : list (str * str)) (key default : str) : str :=
  match find (fun kv => bool_decide (fst kv = key)) d with
  | Some kv => snd kv
  | None => default
  end.

Definition normalize_pos (pos : str) : str :=
  let pos_lower := strip (lower pos) in
  dict_get POS_MAPPING pos_lower (u "other").

(** *** Case-insensitive classes ([re.IGNORECASE]) *)

(** Letters that match each other although neither is the lower case of
    the other (the entries among the letters covered by [tolower]). *)
Definition extra_cases (c : char) : list char :=
  if chr_eqb c 105%N then [305%N]
  else if chr_eqb c 115%N then [383%N]
  else if chr_eqb c 181%N then [956%N]
  else [].

(** A class compiled under [IGNORECASE]: the lower case of its members and
    their extra cases. *)
Definition compile_ci (members : list char) : list char :=
  flat_map (fun c => tolower c :: extra_cases (tolower c)) members.

Definition ci_member (members : list char) (c : char) : bool :=
  let lo := tolower c in
  existsb (chr_eqb lo) (compile_ci members)
  || existsb (chr_eqb (toupper lo)) (compile_ci members).

Definition chr_range (lo hi : ascii) : list char :=
  map N.of_nat (seq (N.to_nat (ch lo)) (S (N.to_nat (ch hi) - N.to_nat (ch lo)))).

(** A literal under [IGNORECASE]. *)
Definition lit_ci (s : string) : Re.regex :=
  Re.Seqs (map (fun c => Re.Cls (ci_member [c])) (u s)).

(** [[a-zA-Züǖǘǚǜāáǎàēéěèīíǐìōóǒòūúǔù]] *)
Definition pinyin_letter : Re.regex :=
  Re.Cls (ci_member (chr_range "a" "z" ++ chr_range "A" "Z"
                       ++ u "üǖǘǚǜāáǎàēéěèīíǐìōóǒòūúǔù")).

(** [(?:pron|adj|v|n|adv|prep|conj|part|num|m|mw|interj)\.?] *)
Definition pos_abbrev : Re.regex :=
  Re.Seq
    (Re.Alts (map lit_ci ["pron"; "adj"; "v"; "n"; "adv"; "prep"; "conj";
                          "part"; "num"; "m"; "mw"; "interj"]%string))
    (Re.Opt (Re.Chr (ch "."))).

(** [LETTER+(?:\s+LETTER+)?] *)
Definition pinyin_token : Re.regex :=
  Re.Seq (Re.Plus pinyin_letter)
    (Re.Opt (Re.Seq (Re.Plus Re.space) (Re.Plus pinyin_letter))).

(** [^(\d+)\.\s*(.+)$] *)
Definition first_part : Re.regex :=
  Re.Seqs [Re.Bol; Re.Group 1 (Re.Plus Re.digit); Re.Chr (ch ".");
           Re.Star Re.space; Re.Group 2 (Re.Plus Re.dot); Re.Eol].

(** [^(\d+)\.\s*(\S+)\s+(PINYIN)\s+(POS)\s*(.+)$] *)
Definition pattern : Re.regex :=
  Re.Seqs [Re.Bol; Re.Group 1 (Re.Plus Re.digit); Re.Chr (ch ".");
           Re.Star Re.space; Re.Group 2 (Re.Plus Re.nonspace);
           Re.Plus Re.space; Re.Group 3 pinyin_token; Re.Plus Re.space;
           Re.Group 4 pos_abbrev; Re.Star Re.space;
           Re.Group 5 (Re.Plus Re.dot); Re.Eol].

(** [^(\d+)\.\s*(\S+)\s+(PINYIN)\s+(.+)$] *)
Definition pattern2 : Re.regex :=
  Re.Seqs [Re.Bol; Re.Group 1 (Re.Plus Re.digit); Re.Chr (ch ".");
           Re.Star Re.space; Re.Group 2 (Re.Plus Re.nonspace);
           Re.Plus Re.space; Re.Group 3 pinyin_token; Re.Plus Re.space;
           Re.Group 4 (Re.Plus Re.dot); Re.Eol].

(** [^(POS)\s*(.+)$] *)
Definition pos_prefix : Re.regex :=
  Re.Seqs [Re.Bol; Re.Group 1 pos_abbrev; Re.Star Re.space;
           Re.Group 2 (Re.Plus Re.dot); Re.Eol].

(** [x or 'other'] *)
Definition or_default (x default : str) : str :=
  if truthy x then x else default.

(** The pipe-separated form; [None] when control falls through to the
    space-separated forms. *)
Definition parse_delimited (line : str) : option parsed :=
  if contains (ch "|") line then
    let parts := split (ch "|") line in
    if (3 <=? length parts)%nat then
      match Re.rmatch first_part (strip (parts !!! 0%nat)) with
      | Some first_match =>
        let chinese := Re.group 2 first_match in
        let pinyin := strip (parts !!! 1%nat) in
        let '(pos, meaning) :=
          if (4 <=? length parts)%nat
          then (or_default (strip (parts !!! 2%nat)) (u "other"),
                strip (parts !!! 3%nat))
          else (u "other", strip (parts !!! 2%nat)) in
        if truthy chinese && truthy pinyin
        then Some (Parsed (strip chinese) (strip pinyin)
                          (normalize_pos pos) (strip meaning))
        else None
      | None => None
      end
    else None
  else None.

(** The space-separated form with an explicit part of speech. *)
Definition parse_tagged (line : str) : option parsed :=
  match Re.rmatch pattern (strip line) with
  | Some m =>
    Some (Parsed (strip (Re.group 2 m)) (strip (Re.group 3 m))
                 (normalize_pos (Re.group 4 m)) (strip (Re.group 5 m)))
  | None => None
  end.

(** The space-separated form without one. *)
Definition parse_untagged (line : str) : option parsed :=
  match Re.rmatch pattern2 (strip line) with
  | Some m =>
    let meaning := Re.group 4 m in
    let '(pos, meaning) :=
      match Re.rmatch pos_prefix meaning with
      | Some pos_match => (Re.group 1 pos_match, Re.group 2 pos_match)
      | None => (u "other", meaning)
      end in
    Some (Parsed (strip (Re.group 2 m)) (strip (Re.group 3 m))
                 (normalize_pos pos) (strip meaning))
  | None => None
  end.

Definition parse_vocab_line (line : str) : option parsed :=
  match parse_delimited line with
  | Some e => Some e
  | None =>
    match parse_tagged line with
    | Some e => Some e
    | None => parse_untagged line
    end
  end.

(** [^\d+\.\s+\S] *)
Definition vocab_line : Re.regex :=
  Re.Seqs [Re.Bol; Re.Plus Re.digit; Re.Chr (ch "."); Re.Plus Re.space;
           Re.nonspace].

(** The body of the loop over the lines of a chapter. *)
Definition vocab_of_line (chapter_num : Z) (line : str) : list entry :=
  if negb (truthy (strip line)) || startswith (ch "#") line
     || startswith (ch "|") line
  then []
  else
    match Re.rmatch vocab_line line with
    | Some _ =>
      match parse_vocab_line line with
      | Some e => [Entry e chapter_num (u "hsk1") None]
      | None => []
      end
    | None => []
    end.

(** [extract_vocab_from_chapter], on the stored text of the chapter
    file. *)
Definition extract_vocab_from_chapter (stored : str) (chapter_num : Z)
    : list entry :=
  let content := read_text stored in
  flat_map (vocab_of_line chapter_num) (split newline content).

(** The accumulators of the de-duplicating loops. *)
Record dedup_state : Type := Dedup {
  accepted : list entry;
  seen_words : gset str;
  skipped : list event
}.

(** [if entry['word'] not in seen_words: ... else: print(...)] *)
Definition dedup_step (i : Z) (st : dedup_state) (e : entry) : dedup_state :=
  if bool_decide (word (fields e) ∈ seen_words st)
  then Dedup (accepted st) (seen_words st)
             (skipped st ++ [SkippingDuplicate (word (fields e)) i])
  else Dedup (accepted st ++ [e]) ({[word (fields e)]} ∪ seen_words st)
             (skipped st).

(** The body of [for i in range(1, 16)] in [extract_all_chapters]. *)
Definition vocab_chapter_step (files : gmap Z str) (st : dedup_state)
    (i : Z) : dedup_state :=
  match files !! i with
  | Some stored =>
    fold_left (dedup_step i) (extract_vocab_from_chapter stored i) st
  | None => st
  end.

Definition extract_all_chapters_run (files : gmap Z str) : dedup_state :=
  fold_left (vocab_chapter_step files) (seqZ 1 15) (Dedup [] ∅ []).

Definition extract_all_chapters (files : gmap Z str) : list entry :=
  accepted (extract_all_chapters_run files).

(** [main] of extract_vocabulary.py writes the list as it is returned. *)
Definition vocabulary_artifact (files : gmap Z str) : list entry :=
  extract_all_chapters files.

(** ** extract_atoms.py *)

(** [load_existing_hsk_words]: [vocab] is the content of
    hsk1_vocabulary.json, [None] when the file is missing. *)
Definition load_existing_hsk_words (vocab : option (list entry)) : gset str :=
  match vocab with
  | Some v => list_to_set (map (fun e => word (fields e)) v)
  | None => ∅
  end.

Definition read_chapter (files : gmap Z str) (chapter_num : Z) : str :=
  match files !! chapter_num with
  | Some stored => read_text stored
  | None => []
  end.

(** [(a['chapter'], a['word']) < (b['chapter'], b['word'])] *)
Definition key_ltb (a b : entry) : bool :=
  if (chapter a =? chapter b)%Z
  then str_ltb (word (fields a)) (word (fields b))
  else (chapter a <? chapter b)%Z.

(** [list.sort(key=...)]: a stable sort that compares keys with [<]. *)
Fixpoint sort_insert (x : entry) (l : list entry) : list entry :=
  match l with
  | [] => [x]
  | y :: l' => if key_ltb y x then y :: sort_insert x l' else x :: y :: l'
  end.

Fixpoint sort_by_key (l : list entry) : list entry :=
  match l with
  | [] => []
  | x :: l' => sort_insert x (sort_by_key l')
  end.

Section Atoms.

(** The request of [extract_atoms_with_claude] and the decoding of its
    answer: the atoms found in a chapter, the [context] key already removed;
    [None] when anything in the task raises. *)
Variable ask_atoms : Z -> str -> gset str -> option (list parsed).

Definition extract_atoms_with_claude (chapter_num : Z) (chapter_content : str)
    (existing_hsk_words : gset str) : list entry :=
  if negb (truthy (strip chapter_content)) then []
  else
    match ask_atoms chapter_num chapter_content existing_hsk_words with
    | Some atoms =>
      map (fun a => Entry a chapter_num (u "hsk1") (Some (u "atom"))) atoms
    | None => []
    end.

(** [chapters[i] = content] for the chapters that have text. *)
Definition atom_chapters (files : gmap Z str) : gmap Z str :=
  fold_left (fun chapters i =>
               let content := read_chapter files i in
               if truthy content then <[i := content]> chapters
               else chapters)
            (seqZ 1 15) ∅.

(** The body of [for future in as_completed(...)]. *)
Definition collect_atoms (future_to_chapter : gmap Z (list entry))
    (chapter_results : gmap Z (list entry)) (chapter_num : Z)
    : gmap Z (list entry) :=
  match future_to_chapter !! chapter_num with
  | Some atoms => <[chapter_num := atoms]> chapter_results
  | None => chapter_results
  end.

(** The body of [for chapter_num in sorted(chapter_results.keys())]. *)
Definition atom_chapter_step (chapter_results : gmap Z (list entry))
    (st : dedup_state) (chapter_num : Z) : dedup_state :=
  match chapter_results !! chapter_num with
  | Some atoms => fold_left (dedup_step chapter_num) atoms st
  | None => st
  end.

Definition process_all_chapters_run (vocab : option (list entry))
    (files : gmap Z str) (completion : list Z) : dedup_state :=
  let existing_hsk_words := load_existing_hsk_words vocab in
  let chapters := atom_chapters files in
  let future_to_chapter :=
    map_imap (fun num content =>
      Some (extract_atoms_with_claude num content existing_hsk_words))
      chapters in
  let chapter_results :=
    fold_left (collect_atoms future_to_chapter) completion ∅ in
  fold_left (atom_chapter_step chapter_results)
    (merge_sort Z.le (elements (dom chapter_results)))
    (Dedup [] existing_hsk_words []).

Definition process_all_chapters (vocab : option (list entry))
    (files : gmap Z str) (completion : list Z) : list entry :=
  accepted (process_all_chapters_run vocab files completion).

(** [main] of extract_atoms.py sorts the atoms before writing them. *)
Definition atoms_artifact (vocab : option (list entry))
    (files : gmap Z str) (completion : list Z) : list entry :=
  sort_by_key (process_all_chapters vocab files completion).

End Atoms.

(** ** Notions used to state the properties *)

(** The test that opens a new lesson in [structure_into_chapters]. *)
Definition starts_lesson (current : Z) (page_text : str) : bool :=
  match extract_lesson_number page_text with
  | Some n => negb (n =? 0)%Z && (n <=? 15)%Z && negb (n =? current)%Z
  | None => false
  end.


Definition continue_lesson (st : seg_state) (page_text : str) : seg_state :=
  SegState (chapters st) (current_lesson st)
           (append_page page_text (current_content st)).


Definition keys_in_range (m : gmap Z str) : Prop :=
  ∀ k text, m !! k = Some text → (1 ≤ k ≤ 15)%Z.

(** The unit texts of a lesson that opens at page [p] and continues over
    the pages [run]: every page trimmed, blank continuation pages left
    out. *)
Definition units (p : str) (run : list str) : list str :=
  strip p :: List.filter truthy (map strip run).

(** [text] is the text of a run of lesson [L] inside [pages]: the run opens
    at a page whose detected number is [L], continues over the pages that
    do not open another lesson, and ends at the end of the input or just
    before a page that does. *)
Definition lesson_run (pages : list str) (L : Z) (text : str) : Prop :=
  ∃ pre p run post,
    pages = pre ++ p :: run ++ post
    ∧ extract_lesson_number p = Some L
    ∧ Forall (λ q, starts_lesson L q = false) run
    ∧ match post with
      | [] => True
      | q :: _ => starts_lesson L q = true
      end
    ∧ text = join sep2 (units p run).

(** A run of lesson [L] that is already closed by a later page of
    [pages]. *)
Definition closed_run (pages : list str) (L : Z) (text : str) : Prop :=
  ∃ pre p run q post,
    pages = pre ++ p :: run ++ q :: post
    ∧ extract_lesson_number p = Some L
    ∧ Forall (λ q, starts_lesson L q = false) run
    ∧ starts_lesson L q = true
    ∧ text = join sep2 (units p run).

(** What the loop of [structure_into_chapters] maintains over the pages
    [done] read so far. *)
Definition seg_inv (done : list str) (st : seg_state) : Prop :=
  (∀ L text, chapters st !! L = Some text → closed_run done L text)
  ∧ ((0 < current_lesson st)%Z →
     ∃ pre p run,
       done = pre ++ p :: run
       ∧ extract_lesson_number p = Some (current_lesson st)
       ∧ Forall (λ q, starts_lesson (current_lesson st) q = false) run
       ∧ current_content st = units p run).

(** The lesson number a page carries: the detected number when it passes
    the test [lesson_num and lesson_num <= 15]. *)
Definition valid_number (page_text : str) : option Z :=
  match extract_lesson_number page_text with
  | Some n => if negb (n =? 0)%Z && (n <=? 15)%Z then Some n else None
  | None => None
  end.

(** The lesson number of the last page of [pages] that carries one, 0 when
    no page does. *)
Definition last_number (pages : list str) : Z :=
  default 0%Z (last (omap valid_number pages)).

(** [p :: run] is the last run of lesson [L] in [pages]: [p] carries [L]
    and the last number carried before it is another one; the pages of
    [run] carry no number or [L] again; what follows is nothing, or starts
    with a page that carries a number, and never carries [L]. *)
Definition last_run (pages : list str) (L : Z) (p : str) (run : list str)
    : Prop :=
  ∃ pre post,
    pages = pre ++ p :: run ++ post
    ∧ valid_number p = Some L
    ∧ last_number pre ≠ L
    ∧ Forall (λ q, valid_number q = None ∨ valid_number q = Some L) run
    ∧ match post with
      | [] => True
      | q :: _ => valid_number q ≠ None
      end
    ∧ Forall (λ q, valid_number q ≠ Some L) post.

(** The corrected text of lesson [n] in a batch: defined when the lesson
    was dispatched and its own task returned. *)
Definition corrected (Anthropic : option (prompt -> option str))
    (chapters : gmap Z str) (structure_context : str) (n : Z) : option str :=
  match chapters !! n with
  | Some content =>
    match outcome (correct_chapter_with_claude Anthropic n content
                     structure_context) with
    | Some (_, text) => Some text
    | None => None
    end
  | None => None
  end.

(** The text left in the file of lesson [n] by a batch: the corrected
    text, or nothing when that text cannot be written. *)
Definition saved (Anthropic : option (prompt -> option str))
    (chapters : gmap Z str) (structure_context : str) (n : Z) : option str :=
  match corrected Anthropic chapters structure_context n with
  | Some text => Some (if utf8_encodable text then text else [])
  | None => None
  end.

(** The line printed for lesson [n] when its future completes. *)
Definition report (Anthropic : option (prompt -> option str))
    (chapters : gmap Z str) (structure_context : str) (n : Z) : list event :=
  match chapters !! n with
  | Some content =>
    match outcome (correct_chapter_with_claude Anthropic n content
                     structure_context) with
    | Some (num, text) =>
      if utf8_encodable text then [Completed num (length text)]
      else [Failed n]
    | None => [Failed n]
    end
  | None => []
  end.

(** The lesson a printed line is about, and the lines about lesson [n]. *)
Definition lesson_of (e : event) : Z :=
  match e with
  | Completed num _ => num
  | Failed chapter_num => chapter_num
  | SkippingDuplicate _ chapter_num => chapter_num
  end.

Definition lines_of (n : Z) (l : list event) : list event :=
  List.filter (fun e => (lesson_of e =? n)%Z) l.

(** The per-lesson artifacts that exist, by ascending lesson number. *)
Definition persisted (files : gmap Z str) : list (Z * str) :=
  omap (fun i => match files !! i with
                 | Some stored => Some (i, read_text stored)
                 | None => None
                 end) (seqZ 1 15).

(** The text of the combined document as it reads: two header lines, each
    followed by an empty line, then for every lesson an empty line, the
    divider line of 70 signs, an empty line, and the lesson. *)
Definition rule : str := repeat_chr (ch "=") 70.

Definition banner_text : str :=
  u "# HSK 1 - Chapters 1-15 (Corrected)" ++ [newline; newline]
  ++ u "# OCR errors fixed, formatting standardized" ++ [newline; newline].

Definition lesson_block (lesson : Z * str) : str :=
  [newline; newline] ++ rule ++ [newline; newline]
  ++ snd lesson ++ [newline; newline].

(** Two consecutive records in (chapter, word) order: the first chapter is
    smaller, or the chapters are equal and the first word is not greater. *)
Definition key_ordered (a b : entry) : Prop :=
  (chapter a < chapter b)%Z
  ∨ (chapter a = chapter b
     ∧ str_ltb (word (fields b)) (word (fields a)) = false).

Definition words (l : list entry) : list str :=
  map (fun e => word (fields e)) l.

(** The records handed to the de-duplicating loop of
    [extract_all_chapters], chapter by chapter and line by line. *)
Definition vocab_stream (files : gmap Z str) : list entry :=
  flat_map (fun i => match files !! i with
                     | Some stored => extract_vocab_from_chapter stored i
                     | None => []
                     end) (seqZ 1 15).

(** The atoms handed to the de-duplicating loop of [process_all_chapters],
    by ascending chapter and in the order the answer lists them. *)
Definition atom_stream (ask_atoms : Z -> str -> gset str -> option (list parsed))
    (vocab : option (list entry)) (files : gmap Z str) : list entry :=
  flat_map (fun i => match atom_chapters files !! i with
                     | Some content =>
                       extract_atoms_with_claude ask_atoms i content
                         (load_existing_hsk_words vocab)
                     | None => []
                     end) (seqZ 1 15).

(** The de-duplicating loop over one stream of records. *)
Definition dedup_run (seed : gset str) (stream : list entry) : dedup_state :=
  fold_left (fun st e => dedup_step (chapter e) st e) stream
            (Dedup [] seed []).

(** First occurrence wins: of a stream read with the words [seed] already
    known, [kept] are the accepted records and [dropped] the reports. *)
Definition first_occurrence_wins (seed : gset str) (stream kept : list entry)
    (dropped : list event) : Prop :=
  NoDup (words kept)
  ∧ kept `sublist_of` stream
  ∧ (∀ e, e ∈ kept → word (fields e) ∉ seed)
  ∧ (∀ pre e post, stream = pre ++ e :: post →
       word (fields e) ∉ seed → word (fields e) ∉ words pre → e ∈ kept)
  ∧ (∀ pre e post, stream = pre ++ e :: post →
       word (fields e) ∈ seed ∨ word (fields e) ∈ words pre →
       SkippingDuplicate (word (fields e)) (chapter e) ∈ dropped)
  ∧ (length kept + length dropped = length stream)%nat.

(** Two records in chapter order. *)
Definition chapter_le (a b : entry) : Prop := (chapter a ≤ chapter b)%Z.

(** A pattern without capturing groups. *)
Fixpoint group_free (r : Re.regex) : Prop :=
  match r with
  | Re.Seq r1 r2 | Re.Alt r1 r2 => group_free r1 ∧ group_free r2
  | Re.Star r1 => group_free r1
  | Re.Group _ _ => False
  | _ => True
  end.

(** ** Further notions *)

(** The two digits at the leftmost place of [s] where two decimal digits
    are followed by a dash and a decimal digit. *)
Fixpoint first_marker (s : str) : option (char * char) :=
  match s with
  | [] => None
  | c1 :: s' =>
    match s' with
    | c2 :: c3 :: c4 :: _ =>
      if isdecimal c1 && isdecimal c2 && chr_eqb c3 (ch "-") && isdecimal c4
      then Some (c1, c2)
      else first_marker s'
    | _ => first_marker s'
    end
  end.

(** Two states of the grouping loop that differ at most in the pages
    gathered before any lesson has opened. *)
Definition seg_sim (st1 st2 : seg_state) : Prop :=
  chapters st1 = chapters st2
  ∧ current_lesson st1 = current_lesson st2
  ∧ (current_lesson st1 = 0%Z ∨ current_content st1 = current_content st2).

(** The categories [normalize_pos] can return. *)
Definition canonical_pos : list str :=
  map u ["pronoun"; "adjective"; "verb"; "noun"; "adverb"; "preposition";
         "conjunction"; "particle"; "numeral"; "measure_word";
         "interjection"; "other"]%string.

(** A string without white space at either end. *)
Definition trimmed (s : str) : Prop := strip s = s.

(** ** structure_chapters.py: [format_output] *)

From Stdlib Require Import DecimalString.

(** [str(n)] for an integer. *)
Definition str_of_int (n : Z) : str :=
  map N_of_ascii (list_ascii_of_string (NilZero.string_of_int (Z.to_int n))).

Definition format_header : list str :=
  [ u "# HSK 1 - Chapters 1-15";
    u "# Extracted from HSK1_SC_L1-L15.pdf via OCR";
    u "# Note: Review for OCR errors, especially in pinyin tones";
    [] ].

(** The body of [for lesson_num in sorted(chapters.keys())]; [None] stands
    for the [IndexError] of the numeral lookup. *)
Definition format_lesson (chapters : gmap Z str) (output : list str)
    (lesson_num : Z) : option (list str) :=
  match (chapters !! lesson_num : option str) with
  | Some content =>
    match py_index chinese_nums lesson_num with
    | Some chinese_num =>
      Some (output
            ++ [ [];
                 repeat_chr (ch "=") 70;
                 u "## 第" ++ chinese_num ++ u "课 - Lesson "
                   ++ str_of_int lesson_num;
                 repeat_chr (ch "=") 70;
                 [];
                 content;
                 [] ])
    | None => None
    end
  | None => None
  end.

Definition format_output (chapters : gmap Z str) : option str :=
  match fold_left (fun output lesson_num =>
                     match output with
                     | Some out => format_lesson chapters out lesson_num
                     | None => None
                     end)
                  (merge_sort Z.le (elements (dom chapters)))
                  (Some format_header) with
  | Some output => Some (join [newline] output)
  | None => None
  end.

(** The value [formatted] of [main] of structure_chapters.py, from the
    pages read. *)
Definition structure_main (pages : list str) : option str :=
  format_output (structure_into_chapters pages).

(** ** ocr_extract.py: the file written by [extract_pdf_with_ocr] *)

Definition rule60 : str := repeat_chr (ch "=") 60.

(** The banner appended to [all_text] for the page of index [page_num]. *)
Definition page_banner (page_num : nat) : str :=
  [newline] ++ rule60 ++ [newline] ++ u "## PAGE "
  ++ str_of_int (Z.of_nat page_num + 1) ++ [newline] ++ rule60 ++ [newline].

(** The body of the loop over the pages; [images] are the texts
    [ocr_image_macos] returns for the images of the page, in order. *)
Definition ocr_page (all_text : list str) (page_num : nat)
    (images : list str) : list str :=
  match images with
  | [] => all_text
  | _ =>
    match List.filter (fun text => truthy (strip text)) images with
    | [] => all_text
    | page_text =>
      all_text ++ [page_banner page_num; join [newline] page_text]
    end
  end.

Fixpoint ocr_pages (page_num : nat) (doc : list (list str))
    (all_text : list str) : list str :=
  match doc with
  | [] => all_text
  | images :: doc' =>
    ocr_pages (S page_num) doc' (ocr_page all_text page_num images)
  end.

(** The text of the three [f.write] calls of [extract_pdf_with_ocr]. *)
Definition ocr_file (doc : list (list str)) : str :=
  (u "# HSK 1 - Chapters 1-15 (OCR Extracted)" ++ [newline])
  ++ (u "# Note: Review for OCR errors, especially in pinyin tones"
      ++ [newline; newline])
  ++ join [newline] (ocr_pages 0 doc []).

(** [extract_pdf_with_ocr]: the text stored in hsk1_ocr.txt; [None] when
    [f.write(full_text)] raises because the text cannot be encoded. *)
Definition extract_pdf_with_ocr (doc : list (list str)) : option str :=
  let full_text := join [newline] (ocr_pages 0 doc []) in
  if utf8_encodable full_text then Some (ocr_file doc) else None.

(** ** structure_chapters.py: [parse_ocr_output] *)

(** A literal. *)
Definition lit (s : string) : Re.regex := Re.Seqs (map Re.Chr (u s)).

(** [={60,}] *)
Definition rule_pattern : Re.regex :=
  Re.Seq (Re.Seqs (repeat (Re.Chr (ch "=")) 60)) (Re.Star (Re.Chr (ch "="))).

(** [={60,}\n## PAGE \d+\n={60,}] *)
Definition page_marker : Re.regex :=
  Re.Seqs [rule_pattern; Re.Chr newline; lit "## PAGE "; Re.Plus Re.digit;
           Re.Chr newline; rule_pattern].

(** The leftmost match of [r] in [s], which starts at position [i] of the
    whole text: the text passed over and the state after the match. *)
Fixpoint search_span (r : Re.regex) (i : nat) (passed : str) (s : str)
    : option (str * Re.mstate) :=
  match Re.exec r (Re.MState i s []) Some with
  | Some st => Some (rev passed, st)
  | None =>
    match s with
    | [] => None
    | c :: s' => search_span r (S i) (c :: passed) s'
    end
  end.

(** [re.split(r, s)] for a pattern without groups that matches no empty
    string: the pieces between the successive leftmost matches. *)
Fixpoint re_split_from (r : Re.regex) (fuel : nat) (i : nat) (s : str)
    : list str :=
  match fuel with
  | O => [s]
  | S fuel' =>
    match search_span r i [] s with
    | Some (before, st) =>
      before :: re_split_from r fuel' (Re.pos st) (Re.rest st)
    | None => [s]
    end
  end.

Definition re_split (r : Re.regex) (s : str) : list str :=
  re_split_from r (S (length s)) 0 s.

(** [parse_ocr_output], on the stored text of the OCR file. *)
Definition parse_ocr_output (stored : str) : list str :=
  let content := read_text stored in
  let pages := re_split page_marker content in
  match pages with
  | first :: rest => if startswith (ch "#") first then rest else pages
  | [] => pages
  end.

(** The page texts of a document: for every page with a non-blank image
    text, those texts joined by newlines. *)
Definition page_texts (doc : list (list str)) : list str :=
  flat_map (fun images =>
              match List.filter (fun text => truthy (strip text)) images with
              | [] => []
              | page_text => [join [newline] page_text]
              end) doc.

(** A text without '=', without carriage return and without surrogate
    code point. *)
Definition plain (s : str) : Prop :=
  Forall (fun c => c ≠ ch "=" ∧ c ≠ 13%N
                   ∧ in_range 55296%N 57343%N c = false) s.

(** The part of a page banner that the page pattern matches. *)
Definition page_rule (k : nat) : str :=
  rule60 ++ [newline] ++ u "## PAGE " ++ str_of_int (Z.of_nat k + 1)
  ++ [newline] ++ rule60.

(** The pages of a document that have text, with their index. *)
Fixpoint numbered (page_num : nat) (doc : list (list str))
    : list (nat * str) :=
  match doc with
  | [] => []
  | images :: doc' =>
    match List.filter (fun text => truthy (strip text)) images with
    | [] => numbered (S page_num) doc'
    | page_text =>
      (page_num, join [newline] page_text) :: numbered (S page_num) doc'
    end
  end.

(** The written text from the first page rule on, and the pieces the page
    pattern leaves of it. *)
Fixpoint ocr_body (l : list (nat * str)) : str :=
  match l with
  | [] => []
  | (k, text) :: rest =>
    page_rule k ++ [newline; newline] ++ text
    ++ match rest with
       | [] => []
       | _ => [newline; newline] ++ ocr_body rest
       end
  end.

Fixpoint frames (l : list (nat * str)) : list str :=
  match l with
  | [] => []
  | (k, text) :: rest =>
    match rest with
    | [] => [[newline; newline] ++ text]
    | _ => ([newline; newline] ++ text ++ [newline; newline]) :: frames rest
    end
  end.

(** ** extract_atoms.py: the JSON text taken from the answer *)

(** [s] without the prefix [p], when it starts with it. *)
Fixpoint strip_prefix (p s : str) : option str :=
  match p with
  | [] => Some s
  | c :: p' =>
    match s with
    | x :: s' => if chr_eqb x c then strip_prefix p' s' else None
    | [] => None
    end
  end.

(** The leftmost occurrence of [sep] in [s]: the text before it and the
    text after it. *)
Fixpoint find_sub (sep s : str) : option (str * str) :=
  match strip_prefix sep s with
  | Some after => Some ([], after)
  | None =>
    match s with
    | [] => None
    | c :: s' =>
      match find_sub sep s' with
      | Some (before, after) => Some (c :: before, after)
      | None => None
      end
    end
  end.

(** [sep in s] *)
Definition contains_str (sep s : str) : bool :=
  match find_sub sep s with
  | Some _ => true
  | None => false
  end.

(** [s.split(sep)] for a non-empty [sep]. *)
Fixpoint split_str_from (sep : str) (fuel : nat) (s : str) : list str :=
  match fuel with
  | O => [s]
  | S fuel' =>
    match find_sub sep s with
    | Some (before, after) => before :: split_str_from sep fuel' after
    | None => [s]
    end
  end.

Definition split_str (sep s : str) : list str :=
  split_str_from sep (S (length s)) s.

Definition fence : str := u "```".
Definition json_fence : str := u "```json".

(** The text [extract_atoms_with_claude] passes to [json.loads], from the
    text of the answer; [None] stands for [IndexError]. *)
Definition json_text (text : str) : option str :=
  let result_text := strip text in
  if contains_str json_fence result_text then
    match py_index (split_str json_fence result_text) 1 with
    | Some part =>
      match py_index (split_str fence part) 0 with
      | Some inner => Some (strip inner)
      | None => None
      end
    | None => None
    end
  else if contains_str fence result_text then
    match py_index (split_str fence result_text) 1 with
    | Some part =>
      match py_index (split_str fence part) 0 with
      | Some inner => Some (strip inner)
      | None => None
      end
    | None => None
    end
  else Some result_text.

(** The text of [s] before the first [sep], all of [s] when there is
    none: [s.split(sep)[0]]. *)
Definition first_piece (sep s : str) : str :=
  match find_sub sep s with
  | Some (before, _) => before
  | None => s
  end.

Definition backquote : char := ch "`".

(** * Properties *)

Ltac reassoc := repeat (rewrite <- app_assoc; simpl); try done.

(** ** The matcher *)

Section Matcher.

Lemma star_loop_groups {A : Type}
    (body : Re.mstate → (Re.mstate → option A) → option A)
    (k : Re.mstate → option A) :
  (∀ st k' a, body st k' = Some a →
     ∃ st', k' st' = Some a ∧ Re.groups st' = Re.groups st) →
  ∀ fuel st a, Re.star_loop body k fuel st = Some a →
    ∃ st', k st' = Some a ∧ Re.groups st' = Re.groups st.
Proof.
  intros Hbody fuel. induction fuel as [|fuel IHf]; simpl; intros st a H.
  - by exists st.
  - destruct (body st _) eqn:E.
    + injection H as ->. apply Hbody in E as (st1 & E & E1).
      destruct (_ <? _)%nat; [|discriminate].
      apply IHf in E as (st2 & E & E2).
      exists st2. split; [done|congruence].
    + by exists st.
Qed.

(** A successful run ends in the continuation, and a pattern without
    groups hands it the groups it was given. *)
Lemma exec_group_free {A : Type} (r : Re.regex) :
  group_free r →
  ∀ (st : Re.mstate) (k : Re.mstate → option A) (a : A),
    Re.exec r st k = Some a →
    ∃ st', k st' = Some a ∧ Re.groups st' = Re.groups st.
Proof.
  induction r as [|p|r1 IH1 r2 IH2|r1 IH1 r2 IH2|r1 IH1|n r1 IH1| |];
    cbn [Re.exec group_free]; intros Hgf st k a H.
  - by exists st.
  - destruct (Re.rest st) as [|c s']; [discriminate|].
    destruct (p c); [|discriminate]. eexists. split; [exact H|done].
  - destruct Hgf as [Hg1 Hg2].
    apply (IH1 Hg1) in H as (st1 & H & E1).
    apply (IH2 Hg2) in H as (st2 & H & E2).
    exists st2. split; [done|congruence].
  - destruct Hgf as [Hg1 Hg2].
    destruct (Re.exec r1 st k) eqn:E.
    + injection H as ->. by apply (IH1 Hg1) in E.
    + by apply (IH2 Hg2) in H.
  - eapply star_loop_groups; [|exact H]. by apply IH1.
  - done.
  - destruct (Nat.eqb _ _); [|discriminate]. by exists st.
  - destruct (Re.at_end _); [|discriminate]. by exists st.
Qed.

(** A match of the lesson marker captures two decimal digits. *)
Lemma lesson_marker_group (i : nat) (s : str) (g : list (nat * str)) :
  Re.exec lesson_marker (Re.MState i s []) (λ st, Some (Re.groups st)) = Some g →
  ∃ c1 c2, isdecimal c1 = true ∧ isdecimal c2 = true
           ∧ Re.group 1 g = [c1; c2].
Proof.
  unfold lesson_marker. cbn [Re.Seqs Re.exec Re.digit Re.rest]. intros H.
  destruct s as [|c1 s]; [discriminate|]. cbn [Re.rest Re.pos Re.groups] in H.
  destruct (isdecimal c1) eqn:E1; [|discriminate].
  destruct s as [|c2 s]; [discriminate|].
  destruct (isdecimal c2) eqn:E2; [|discriminate].
  apply (exec_group_free (Re.Seq (Re.Chr (ch "-")) (Re.Plus Re.digit)))
    in H as (st' & H & E); [|by repeat split].
  injection H as <-. rewrite E. exists c1, c2.
  split; [done|]. split; [done|]. simpl.
  replace (S (S i) - i)%nat with 2%nat by lia. done.
Qed.

Lemma search_lesson_marker (i : nat) (s : str) (g : list (nat * str)) :
  Re.search_from lesson_marker i s = Some g →
  ∃ c1 c2, isdecimal c1 = true ∧ isdecimal c2 = true
           ∧ Re.group 1 g = [c1; c2].
Proof.
  revert i. induction s as [|c s IH]; intros i; cbn [Re.search_from];
    destruct (Re.exec lesson_marker _ _) eqn:E;
    try (intros [= <-]; by eapply lesson_marker_group).
  apply IH.
Qed.

End Matcher.

(** ** The segmenter *)

Section Segmenter.

#[local] Open Scope Z_scope.

Lemma decimal_value_range (c : char) (d : Z) :
  decimal_value c = Some d → 0 ≤ d ≤ 9.
Proof.
  unfold decimal_value.
  match goal with
  | |- context [List.find ?f ?l] => destruct (List.find f l) as [b|] eqn:E
  end; [|discriminate].
  apply List.find_some in E as [_ E]. unfold in_range in E.
  apply andb_true_iff in E as [E1 E2].
  apply N.leb_le in E1, E2. intros [= <-]. lia.
Qed.

Lemma int_digits_nonneg (s : str) (acc n : Z) :
  int_digits acc s = Some n → 0 ≤ acc → 0 ≤ n.
Proof.
  revert acc. induction s as [|c s IH]; simpl; intros acc Hn Hacc.
  - congruence.
  - destruct (decimal_value c) as [d|] eqn:E; [|discriminate].
    apply decimal_value_range in E. apply IH in Hn; [done|]. lia.
Qed.

Lemma extract_lesson_number_nonneg (text : str) (n : Z) :
  extract_lesson_number text = Some n → 0 ≤ n.
Proof.
  unfold extract_lesson_number, int.
  destruct (Re.search _ _) as [m|]; [|discriminate].
  destruct (Re.group 1 m); [discriminate|].
  intros H. by apply int_digits_nonneg in H.
Qed.

(** [int] cannot fail on the group of a marker, and gives a number of two
    digits. *)
Lemma marker_int (text : str) (m : list (nat * str)) :
  Re.search lesson_marker text = Some m →
  ∃ n, int (Re.group 1 m) = Some n ∧ 0 ≤ n ≤ 99.
Proof.
  intros (c1 & c2 & E1 & E2 & ->)%search_lesson_marker.
  unfold isdecimal in E1, E2. unfold int. simpl.
  destruct (decimal_value c1) as [d1|] eqn:D1; [|discriminate].
  destruct (decimal_value c2) as [d2|] eqn:D2; [|discriminate].
  apply decimal_value_range in D1, D2.
  eexists. split; [done|]. lia.
Qed.

Lemma extract_lesson_number_range (text : str) (n : Z) :
  extract_lesson_number text = Some n → 0 ≤ n ≤ 99.
Proof.
  unfold extract_lesson_number.
  destruct (Re.search _ _) as [m|] eqn:E; [|discriminate].
  destruct (marker_int _ _ E) as (n' & -> & Hn). by intros [= <-].
Qed.

Lemma structure_step_continue (st : seg_state) (p : str) :
  starts_lesson (current_lesson st) p = false →
  structure_step st p = continue_lesson st p.
Proof.
  unfold starts_lesson, structure_step, continue_lesson.
  destruct (extract_lesson_number p) as [n|]; [|done].
  by intros ->.
Qed.

Lemma structure_step_start (st : seg_state) (p : str) (n : Z) :
  extract_lesson_number p = Some n →
  starts_lesson (current_lesson st) p = true →
  structure_step st p = SegState (flush st) n [strip p].
Proof.
  unfold starts_lesson, structure_step. intros ->. by intros ->.
Qed.

Lemma starts_lesson_valid (current : Z) (p : str) :
  starts_lesson current p = true →
  ∃ n, extract_lesson_number p = Some n ∧ 1 ≤ n ≤ 15 ∧ n ≠ current.
Proof.
  unfold starts_lesson. destruct (extract_lesson_number p) as [n|] eqn:E;
    [|discriminate].
  intros H. apply extract_lesson_number_nonneg in E. exists n. split; [done|].
  destruct (Z.eqb_spec n 0), (Z.leb_spec n 15), (Z.eqb_spec n current);
    simpl in H; try discriminate; lia.
Qed.

Lemma noise_does_not_start (current : Z) (p : str) (n : Z) :
  extract_lesson_number p = Some n → ¬ (1 ≤ n ≤ 15) →
  starts_lesson current p = false.
Proof.
  intros E Hn. destruct (starts_lesson current p) eqn:H; [|done].
  apply starts_lesson_valid in H as (n' & E' & ? & _).
  rewrite E in E'. simplify_eq. lia.
Qed.

Lemma flush_keys_in_range (st : seg_state) :
  current_lesson st ≤ 15 → keys_in_range (chapters st) →
  keys_in_range (flush st).
Proof.
  intros Hc Hk. unfold flush.
  destruct (current_content st); [done|].
  destruct (Z.ltb_spec 0 (current_lesson st)); [|done].
  intros k text. rewrite lookup_insert. case_decide; [|by apply Hk].
  intros _. lia.
Qed.

Lemma structure_step_keys_in_range (st : seg_state) (p : str) :
  current_lesson st ≤ 15 → keys_in_range (chapters st) →
  current_lesson (structure_step st p) ≤ 15
  ∧ keys_in_range (chapters (structure_step st p)).
Proof.
  intros Hc Hk. destruct (starts_lesson (current_lesson st) p) eqn:E.
  - destruct (starts_lesson_valid _ _ E) as (n & En & Hn & _).
    rewrite (structure_step_start _ _ _ En E). simpl.
    split; [lia|]. by apply flush_keys_in_range.
  - rewrite (structure_step_continue _ _ E). done.
Qed.

Lemma structure_fold_keys_in_range (pages : list str) (st : seg_state) :
  current_lesson st ≤ 15 → keys_in_range (chapters st) →
  current_lesson (fold_left structure_step pages st) ≤ 15
  ∧ keys_in_range (chapters (fold_left structure_step pages st)).
Proof.
  revert st. induction pages as [|p pages IH]; intros st Hc Hk; [done|].
  simpl. destruct (structure_step_keys_in_range st p Hc Hk).
  by apply IH.
Qed.

(** C4. The keys of the lesson map built by [structure_into_chapters] lie
    in 1..15 for every sequence of pages, and a page whose detected number
    lies outside 1..15 is a continuation page: it leaves the map and the
    current lesson as they are and is appended to the lesson being
    accumulated. *)
Theorem segmenter_keys_in_range (pages : list str) :
  (∀ k text, structure_into_chapters pages !! k = Some text → 1 ≤ k ≤ 15)
  ∧ (∀ st p n, extract_lesson_number p = Some n → ¬ (1 ≤ n ≤ 15) →
       structure_step st p
       = SegState (chapters st) (current_lesson st)
                  (append_page p (current_content st))).
Proof.
  split.
  - unfold structure_into_chapters.
    destruct (structure_fold_keys_in_range pages seg_init) as [Hc Hk];
      [simpl; lia|intros k text; simpl; by rewrite lookup_empty|].
    by apply flush_keys_in_range.
  - intros st p n E Hn. apply structure_step_continue.
    by eapply noise_does_not_start.
Qed.

Lemma segmenter_keys_in_range_witness :
  1 ≤ 2 ≤ 15
  ∧ structure_step (SegState ∅ 2 [u "02-1 two"]) (u "39-4 noise")
    = SegState ∅ 2 (append_page (u "39-4 noise") [u "02-1 two"]).
Proof.
  destruct (segmenter_keys_in_range [u "02-1 two"; u "39-4 noise"])
    as [Hkeys Hnoise].
  split.
  - apply (Hkeys 2 (u "02-1 two" ++ sep2 ++ u "39-4 noise")).
    vm_compute. reflexivity.
  - apply (Hnoise (SegState ∅ 2 [u "02-1 two"]) (u "39-4 noise") 39).
    + vm_compute. reflexivity.
    + lia.
Defined.

Lemma noise_fold (pages : list str) (st : seg_state) :
  Forall (λ p, ∀ n, extract_lesson_number p = Some n → ¬ (1 ≤ n ≤ 15)) pages →
  chapters (fold_left structure_step pages st) = chapters st
  ∧ current_lesson (fold_left structure_step pages st) = current_lesson st.
Proof.
  intros H. revert st. induction H as [|p pages Hp _ IH]; intros st; [done|].
  simpl. rewrite structure_step_continue.
  - destruct (IH (continue_lesson st p)) as [-> ->]. done.
  - destruct (extract_lesson_number p) as [n|] eqn:E.
    + eapply noise_does_not_start; eauto.
    + unfold starts_lesson. by rewrite E.
Qed.

(** C9. When no page carries a marker whose number lies in 1..15,
    [structure_into_chapters] returns the empty map. *)
Theorem no_valid_marker_empty_map (pages : list str) :
  Forall (λ p, ∀ n, extract_lesson_number p = Some n → ¬ (1 ≤ n ≤ 15)) pages →
  structure_into_chapters pages = ∅.
Proof.
  intros H. unfold structure_into_chapters, flush.
  destruct (noise_fold pages seg_init H) as [Hc Hl].
  rewrite Hc, Hl. simpl. by destruct (current_content _).
Qed.

Lemma no_valid_marker_empty_map_witness :
  structure_into_chapters [u "39-1 noise"; u "plain text"; u "00-2 zero"] = ∅.
Proof.
  apply no_valid_marker_empty_map.
  repeat constructor; intros n E; vm_compute in E; inversion E; lia.
Defined.

Lemma units_snoc (p q : str) (run : list str) :
  units p (run ++ [q]) = append_page q (units p run).
Proof.
  unfold units, append_page. rewrite map_app, List.filter_app. simpl.
  destruct (truthy (strip q)); simpl; [done|by rewrite app_nil_r].
Qed.

Lemma closed_run_extend (done more : list str) (L : Z) (text : str) :
  closed_run done L text → closed_run (done ++ more) L text.
Proof.
  intros (pre & p & run & q & post & -> & Hp & Hrun & Hq & ->).
  exists pre, p, run, q, (post ++ more).
  split; [|done]. reassoc.
Qed.

Lemma closed_run_lesson_run (pages : list str) (L : Z) (text : str) :
  closed_run pages L text → lesson_run pages L text.
Proof.
  intros (pre & p & run & q & post & -> & Hp & Hrun & Hq & ->).
  by exists pre, p, run, (q :: post).
Qed.

Lemma flush_closed_run (done : list str) (st : seg_state) (q : str) :
  seg_inv done st → starts_lesson (current_lesson st) q = true →
  ∀ L text, flush st !! L = Some text → closed_run (done ++ [q]) L text.
Proof.
  intros [Hch Hcur] Hq L text. unfold flush.
  destruct (current_content st) as [|s l] eqn:Ec;
    [intros; by apply closed_run_extend, Hch|].
  destruct (Z.ltb_spec 0 (current_lesson st)) as [Hpos|];
    [|intros; by apply closed_run_extend, Hch].
  rewrite lookup_insert. case_decide as HL;
    [|intros; by apply closed_run_extend, Hch].
  intros Heq. assert (text = join sep2 (s :: l)) as -> by congruence.
  subst L.
  destruct (Hcur Hpos) as (pre & p & run & -> & Hp & Hrun & Hunits).
  exists pre, p, run, q, []. rewrite Hunits.
  split; [reassoc|done].
Qed.

Lemma structure_step_inv (done : list str) (st : seg_state) (q : str) :
  seg_inv done st → seg_inv (done ++ [q]) (structure_step st q).
Proof.
  intros Hinv. destruct (starts_lesson (current_lesson st) q) eqn:E.
  - destruct (starts_lesson_valid _ _ E) as (n & En & Hn & _).
    rewrite (structure_step_start _ _ _ En E). split; simpl.
    + by apply flush_closed_run.
    + intros _. by exists done, q, [].
  - rewrite (structure_step_continue _ _ E).
    destruct Hinv as [Hch Hcur]. split; simpl.
    + intros L text HL. by apply closed_run_extend, Hch.
    + intros Hpos.
      destruct (Hcur Hpos) as (pre & p & run & -> & Hp & Hrun & Hu).
      exists pre, p, (run ++ [q]).
      split; [reassoc|]. split; [done|]. split.
      * apply Forall_app. split; [done|]. by constructor.
      * by rewrite units_snoc, Hu.
Qed.

Lemma structure_fold_inv (rest done : list str) (st : seg_state) :
  seg_inv done st → seg_inv (done ++ rest) (fold_left structure_step rest st).
Proof.
  revert done st. induction rest as [|q rest IH]; intros done st Hinv.
  - by rewrite app_nil_r.
  - simpl. replace (done ++ q :: rest) with ((done ++ [q]) ++ rest) by reassoc.
    by apply IH, structure_step_inv.
Qed.

Lemma flush_final (pages : list str) (st : seg_state) :
  seg_inv pages st →
  ∀ L text, flush st !! L = Some text → lesson_run pages L text.
Proof.
  intros [Hch Hcur] L text. unfold flush.
  destruct (current_content st) as [|s l] eqn:Ec;
    [intros; by apply closed_run_lesson_run, Hch|].
  destruct (Z.ltb_spec 0 (current_lesson st)) as [Hpos|];
    [|intros; by apply closed_run_lesson_run, Hch].
  rewrite lookup_insert. case_decide as HL;
    [|intros; by apply closed_run_lesson_run, Hch].
  intros Heq. assert (text = join sep2 (s :: l)) as -> by congruence.
  subst L.
  destruct (Hcur Hpos) as (pre & p & run & -> & Hp & Hrun & Hunits).
  exists pre, p, run, []. rewrite Hunits.
  split; [by rewrite app_nil_r|done].
Qed.

Lemma continue_fold (run : list str) (st : seg_state) :
  Forall (λ q, starts_lesson (current_lesson st) q = false) run →
  fold_left structure_step run st
  = SegState (chapters st) (current_lesson st)
             (fold_left (λ content q, append_page q content) run
                        (current_content st)).
Proof.
  revert st. induction run as [|q run IH]; intros st H.
  - by destruct st.
  - apply Forall_cons in H as [Hq H]. simpl.
    rewrite structure_step_continue by done.
    rewrite IH by done. done.
Qed.

Lemma units_fold (p : str) (run : list str) :
  fold_left (λ content q, append_page q content) run [strip p] = units p run.
Proof.
  induction run as [|q run IH] using rev_ind; [done|].
  by rewrite fold_left_app, units_snoc, IH.
Qed.

(** The number a page carries, and the test that opens a lesson. *)
Lemma valid_number_extract (p : str) (n : Z) :
  valid_number p = Some n → extract_lesson_number p = Some n ∧ 1 ≤ n ≤ 15.
Proof.
  unfold valid_number.
  destruct (extract_lesson_number p) as [m|] eqn:E; [|discriminate].
  apply extract_lesson_number_nonneg in E.
  destruct (Z.eqb_spec m 0), (Z.leb_spec m 15); simpl; try discriminate.
  intros [= <-]. split; [done|lia].
Qed.

Lemma starts_lesson_number (current : Z) (p : str) :
  starts_lesson current p
  = match valid_number p with
    | Some n => negb (n =? current)
    | None => false
    end.
Proof.
  unfold starts_lesson, valid_number.
  destruct (extract_lesson_number p) as [n|]; [|done].
  by destruct (negb (n =? 0) && (n <=? 15)).
Qed.

Lemma structure_step_current (st : seg_state) (p : str) :
  current_lesson (structure_step st p)
  = match valid_number p with
    | Some n => n
    | None => current_lesson st
    end.
Proof.
  destruct (starts_lesson (current_lesson st) p) eqn:E.
  - destruct (starts_lesson_valid _ _ E) as (n & En & Hn & _).
    rewrite (structure_step_start _ _ _ En E). simpl.
    unfold valid_number. rewrite En.
    destruct (Z.eqb_spec n 0), (Z.leb_spec n 15); simpl; try done; lia.
  - rewrite (structure_step_continue _ _ E). simpl.
    rewrite starts_lesson_number in E.
    destruct (valid_number p) as [n|]; [|done].
    by apply negb_false_iff, Z.eqb_eq in E.
Qed.

Lemma last_number_snoc (pages : list str) (q : str) :
  last_number (pages ++ [q])
  = match valid_number q with
    | Some n => n
    | None => last_number pages
    end.
Proof.
  unfold last_number. rewrite omap_app. simpl.
  destruct (valid_number q) as [n|]; simpl.
  - by rewrite last_snoc.
  - by rewrite app_nil_r.
Qed.

Lemma last_number_carried (pre post : list str) :
  (∃ q, q ∈ post ∧ valid_number q ≠ None) →
  ∃ q, q ∈ post ∧ valid_number q = Some (last_number (pre ++ post)).
Proof.
  induction post as [|q post IH] using rev_ind.
  - by intros (q & ?%elem_of_nil & _).
  - intros (x & Hx & Hv). rewrite app_assoc, last_number_snoc.
    destruct (valid_number q) as [n|] eqn:Eq.
    + exists q. split; [set_solver|done].
    + destruct IH as (y & Hy & Ey).
      * apply elem_of_app in Hx as [Hx|Hx%list_elem_of_singleton].
        -- by exists x.
        -- congruence.
      * exists y. split; [set_solver|done].
Qed.

(** The lesson being accumulated is the last number read. *)
Lemma current_lesson_last_number (pages : list str) :
  current_lesson (fold_left structure_step pages seg_init)
  = last_number pages.
Proof.
  induction pages as [|q pages IH] using rev_ind; [done|].
  by rewrite fold_left_app, last_number_snoc, <- IH, <- structure_step_current.
Qed.

Lemma last_number_elem (pages : list str) (L : Z) :
  last_number pages = L → L ≠ 0 →
  ∃ q, q ∈ pages ∧ valid_number q = Some L.
Proof.
  unfold last_number. intros H HL.
  destruct (last (omap valid_number pages)) as [n|] eqn:E; simpl in H;
    [|congruence].
  subst n. apply last_Some_elem_of, list_elem_of_omap in E.
  destruct E as (q & Hq & E). by exists q.
Qed.

(** A lesson that is not in progress and whose number no later page
    carries keeps its entry. *)
Lemma flush_other (st : seg_state) (L : Z) :
  current_lesson st ≠ L → flush st !! L = chapters st !! L.
Proof.
  intros H. unfold flush. destruct (current_content st); [done|].
  destruct (0 <? current_lesson st); [|done].
  by rewrite lookup_insert_ne.
Qed.

Lemma fold_keeps_other (post : list str) (st : seg_state) (L : Z) :
  Forall (λ q, valid_number q ≠ Some L) post →
  current_lesson st ≠ L →
  flush (fold_left structure_step post st) !! L = chapters st !! L.
Proof.
  intros H. revert st. induction H as [|q post Hq _ IH]; intros st Hst.
  - by apply flush_other.
  - cbn [fold_left]. rewrite IH.
    + destruct (starts_lesson (current_lesson st) q) eqn:E.
      * destruct (starts_lesson_valid _ _ E) as (n & En & _ & _).
        rewrite (structure_step_start _ _ _ En E). simpl.
        by apply flush_other.
      * by rewrite (structure_step_continue _ _ E).
    + rewrite structure_step_current.
      destruct (valid_number q) as [n|]; [congruence|done].
Qed.

(** The last run of a lesson is what the map holds for it. *)
Lemma last_run_kept (pages : list str) (L : Z) (p : str) (run : list str) :
  last_run pages L p run →
  structure_into_chapters pages !! L = Some (join sep2 (units p run)).
Proof.
  intros (pre & post & -> & Hp & Hpre & Hrun & Hhead & Hpost).
  destruct (valid_number_extract _ _ Hp) as [Ep HL].
  unfold structure_into_chapters.
  rewrite fold_left_app. cbn [fold_left].
  set (st1 := fold_left structure_step pre seg_init).
  assert (current_lesson st1 ≠ L) as Hcur
    by (unfold st1; by rewrite current_lesson_last_number).
  rewrite (structure_step_start st1 p L Ep)
    by (rewrite starts_lesson_number, Hp; by apply negb_true_iff, Z.eqb_neq).
  rewrite fold_left_app.
  rewrite (continue_fold run).
  2:{ cbn [current_lesson]. eapply Forall_impl; [exact Hrun|].
      intros q Hq. rewrite starts_lesson_number.
      destruct Hq as [->| ->]; [done|]. by rewrite Z.eqb_refl. }
  cbn [chapters current_lesson current_content]. rewrite units_fold.
  assert (flush (SegState (flush st1) L (units p run)) !! L
          = Some (join sep2 (units p run))) as Hflush.
  { unfold flush, units. cbn [current_content current_lesson chapters].
    destruct (Z.ltb_spec 0 L); [|lia]. by rewrite lookup_insert_eq. }
  destruct post as [|q post]; [done|].
  apply Forall_cons in Hpost as [HqL Hpost]. cbn [fold_left].
  destruct (valid_number q) as [n|] eqn:Eq; [|done].
  destruct (valid_number_extract _ _ Eq) as [En _].
  rewrite (structure_step_start _ q n En)
    by (rewrite starts_lesson_number, Eq; cbn [current_lesson];
        apply negb_true_iff, Z.eqb_neq; congruence).
  rewrite fold_keeps_other; [done|done|].
  cbn [current_lesson]. congruence.
Qed.

(** A lesson number that some page carries has a last run. *)
Lemma last_run_exists (pages : list str) (L : Z) :
  (∃ q, q ∈ pages ∧ valid_number q = Some L) →
  ∃ p run, last_run pages L p run.
Proof.
  induction pages as [|q pages IH] using rev_ind.
  - by intros (q & ?%elem_of_nil & _).
  - intros (q' & Hin & Hq').
    assert (L ≠ 0) as HL0
      by (destruct (valid_number_extract _ _ Hq') as [_ ?]; lia).
    destruct (decide (valid_number q = Some L)) as [Hq|Hq].
    + destruct (decide (last_number pages = L)) as [Hlast|Hlast].
      * destruct (IH (last_number_elem _ _ Hlast HL0))
          as (p & run & pre & post & -> & Hp & Hpre & Hrun & Hhead & Hpost).
        assert (post = []) as ->.
        { destruct post as [|q0 post]; [done|]. exfalso.
          destruct (last_number_carried (pre ++ p :: run) (q0 :: post))
            as (x & Hx & Ex); [exists q0; split; [by left|done]|].
          rewrite <- app_assoc in Ex. cbn [app] in Ex. rewrite Hlast in Ex.
          rewrite Forall_forall in Hpost. by apply (Hpost x). }
        exists p, (run ++ [q]), pre, [].
        split; [rewrite !app_nil_r; reassoc|].
        do 2 (split; [done|]). split; [|done].
        apply Forall_app. split; [done|]. constructor; [by right|done].
      * exists q, [], pages, []. by do 5 (split; [done|]).
    + assert (∃ x, x ∈ pages ∧ valid_number x = Some L) as Hex.
      { apply elem_of_app in Hin as [Hin|Hin%list_elem_of_singleton].
        - by exists q'.
        - congruence. }
      destruct (IH Hex)
        as (p & run & pre & post & -> & Hp & Hpre & Hrun & Hhead & Hpost).
      destruct post as [|q0 post].
      * destruct (valid_number q) as [n|] eqn:Eq.
        -- exists p, run, pre, [q].
           split; [rewrite !app_nil_r; reassoc|].
           do 3 (split; [done|]). split; [simpl; congruence|].
           constructor; [by rewrite Eq|constructor].
        -- exists p, (run ++ [q]), pre, [].
           split; [rewrite !app_nil_r; reassoc|].
           do 2 (split; [done|]). split; [|done].
           apply Forall_app. split; [done|]. constructor; [by left|done].
      * exists p, run, pre, ((q0 :: post) ++ [q]).
        split; [reassoc|].
        do 4 (split; [done|]).
        apply Forall_app. split; [done|]. constructor; [done|constructor].
Qed.

(** Every key of the map is the number some page carries. *)
Lemma key_is_carried (pages : list str) (L : Z) (text : str) :
  structure_into_chapters pages !! L = Some text →
  ∃ q, q ∈ pages ∧ valid_number q = Some L.
Proof.
  intros H.
  assert (1 ≤ L ≤ 15) as HL.
  { revert H. unfold structure_into_chapters.
    destruct (structure_fold_keys_in_range pages seg_init) as [Hc Hk];
      [simpl; lia|intros k t; simpl; by rewrite lookup_empty|].
    by apply flush_keys_in_range. }
  assert (lesson_run pages L text)
    as (pre & p & run & post & -> & Hp & _).
  { revert H. apply flush_final.
    apply (structure_fold_inv pages [] seg_init). split; simpl.
    - intros L' text'. by rewrite lookup_empty.
    - lia. }
  exists p. split; [set_solver|].
  unfold valid_number. rewrite Hp.
  destruct (Z.eqb_spec L 0), (Z.leb_spec L 15); simpl; try done; lia.
Qed.

(** C8 (amended). The map built by [structure_into_chapters] holds for a
    lesson exactly the text of its last run: the join, with the separator
    of two newlines and in input order, of the trimmed texts of the page
    that opens the run (a page carrying the lesson's number in 1..15 while
    the last number carried before it is another one) and of the pages
    after it up to the next page that opens a lesson, blank pages left out;
    a lesson has an entry exactly when some page carries its number.  In
    particular, three
    pages whose detected numbers are 1, none and 2 give lesson 2 as the
    trimmed page 3 alone, and lesson 1 as the trimmed pages 1 and 2 joined
    when page 2 is not blank, as the trimmed page 1 alone when it is. *)
Theorem lesson_text_is_join_of_units (pages : list str) :
  (∀ L text, structure_into_chapters pages !! L = Some text
     ↔ ∃ p run, last_run pages L p run ∧ text = join sep2 (units p run))
  ∧ (∀ L, is_Some (structure_into_chapters pages !! L)
       ↔ ∃ q, q ∈ pages ∧ valid_number q = Some L)
  ∧ (∀ p1 p2 p3,
       extract_lesson_number p1 = Some 1 →
       extract_lesson_number p2 = None →
       extract_lesson_number p3 = Some 2 →
       structure_into_chapters [p1; p2; p3]
       = <[2 := strip p3]>
           {[1 := if truthy (strip p2) then strip p1 ++ sep2 ++ strip p2
                  else strip p1]}).
Proof.
  split; [|split].
  - intros L text. split.
    + intros H. destruct (last_run_exists pages L (key_is_carried _ _ _ H))
        as (p & run & Hrun).
      exists p, run. split; [done|].
      rewrite (last_run_kept _ _ _ _ Hrun) in H. congruence.
    + intros (p & run & Hrun & ->). by apply last_run_kept.
  - intros L. split.
    + intros [text H]. by eapply key_is_carried.
    + intros H. destruct (last_run_exists pages L H) as (p & run & Hrun).
      rewrite (last_run_kept _ _ _ _ Hrun). by eexists.
  - intros p1 p2 p3 E1 E2 E3.
    unfold structure_into_chapters. simpl.
    unfold structure_step at 3. rewrite E1. simpl.
    unfold structure_step at 2. rewrite E2. simpl.
    unfold structure_step at 1. rewrite E3. simpl.
    unfold append_page. destruct (strip p2) as [|c t] eqn:Ep2;
      simpl; unfold flush; simpl; rewrite insert_empty; done.
Qed.

Lemma lesson_text_is_join_of_units_witness :
  structure_into_chapters [u "01-1 one"; u " text "; u "02-1 two"]
  = <[2 := u "02-1 two"]> {[1 := u "01-1 one" ++ sep2 ++ u "text"]}.
Proof.
  apply (proj2 (proj2 (lesson_text_is_join_of_units []))
           (u "01-1 one") (u " text ") (u "02-1 two")).
  - vm_compute. reflexivity.
  - vm_compute. reflexivity.
  - vm_compute. reflexivity.
Defined.

(** C8 as stated fails: the second of three pages with the numbers 1, none
    and 2 is blank; lesson 1 is then page 1 alone, not pages 1 and 2 joined
    by the separator, whether the pages are joined as they are or
    trimmed. *)
Lemma blank_unit_is_left_out :
  let pages := [u "01-1 a"; u " "; u "02-1 c"] in
  map extract_lesson_number pages = [Some 1; None; Some 2]
  ∧ structure_into_chapters pages !! 1 = Some (u "01-1 a")
  ∧ structure_into_chapters pages !! 1 ≠ Some (join sep2 [u "01-1 a"; u " "])
  ∧ structure_into_chapters pages !! 1
    ≠ Some (join sep2 [strip (u "01-1 a"); strip (u " ")])
  ∧ structure_into_chapters pages !! 2 = Some (u "02-1 c").
Proof. vm_compute. repeat split; done. Qed.

(** Away from the marker 00 the two grouping loops take the same steps. *)
Lemma ocr_step_structure_step (st : seg_state) (p : str) :
  extract_lesson_number p ≠ Some 0 → ocr_step st p = structure_step st p.
Proof.
  unfold ocr_step, structure_step, extract_lesson_number.
  destruct (Re.search lesson_marker p) as [m|] eqn:E; [|done].
  destruct (marker_int _ _ E) as (n & -> & Hn). intros Hz.
  destruct (Z.eqb_spec n 0) as [->|]; [done|]. done.
Qed.

Lemma grouping_loops_agree_without_zero (pages : list str) :
  Forall (λ p, extract_lesson_number p ≠ Some 0) pages →
  extract_chapters_from_ocr pages = structure_into_chapters pages.
Proof.
  unfold extract_chapters_from_ocr, structure_into_chapters.
  generalize seg_init. intros st H. revert st.
  induction H as [|p pages Hp _ IH]; intros st; simpl; [done|].
  by rewrite ocr_step_structure_step, IH.
Qed.

(** C10. On the pages ["01-1 a"; "00-1 b"] the two grouping loops disagree:
    [structure_into_chapters] keeps the second page in lesson 1, while the
    loop of [extract_chapters_from_ocr] closes lesson 1 at the marker 00 and
    loses the page. *)
Theorem grouping_loops_differ_on_zero :
  structure_into_chapters [u "01-1 a"; u "00-1 b"]
    = {[ 1 := u "01-1 a" ++ sep2 ++ u "00-1 b" ]}
  ∧ extract_chapters_from_ocr [u "01-1 a"; u "00-1 b"]
    = {[ 1 := u "01-1 a" ]}.
Proof. split; vm_compute; reflexivity. Qed.

End Segmenter.

(** ** The correction orchestrator *)

Section Orchestrator.

#[local] Open Scope Z_scope.

Variable Anthropic : option (prompt -> option str).

Abbreviation futures chapters ctx :=
  (map_imap (fun num content =>
     Some (correct_chapter_with_claude Anthropic num content ctx))
     chapters).

Lemma outcome_key (n : Z) (content ctx : str) (num : Z) (text : str) :
  outcome (correct_chapter_with_claude Anthropic n content ctx)
    = Some (num, text) → num = n.
Proof.
  unfold correct_chapter_with_claude.
  destruct Anthropic as [messages_create|]; simpl; [|discriminate].
  destruct (py_index chinese_nums n); simpl; [|discriminate].
  destruct (messages_create _); [|discriminate]. by intros [= <- _].
Qed.



(** Where one completion leaves the maps and the log. *)
Lemma collect_spec (chapters : gmap Z str) (ctx : str) (b : batch) (m : Z) :
  let b' := collect (futures chapters ctx) b m in
  (∀ n, results b' !! n
        = match (if decide (n = m) then corrected Anthropic chapters ctx n
                 else None) with
          | Some text => Some text
          | None => results b !! n
          end)
  ∧ (∀ n, files b' !! n
        = match (if decide (n = m) then saved Anthropic chapters ctx n
                 else None) with
          | Some text => Some text
          | None => files b !! n
          end)
  ∧ log b' = log b ++ report Anthropic chapters ctx m
  ∧ requests b' = requests b.
Proof.
  unfold collect, saved, corrected, report. rewrite map_lookup_imap.
  destruct (chapters !! m) as [content|] eqn:Em; simpl.
  - destruct (outcome _) as [[num text]|] eqn:Eo; simpl.
    + apply outcome_key in Eo as Hk. subst num.
      destruct (utf8_encodable text) eqn:Ee; simpl;
        repeat split; intros n; rewrite lookup_insert;
        destruct (decide (n = m)) as [->|]; case_decide; try congruence;
        rewrite ?Em, ?Eo, ?Ee; done.
    + repeat split; intros n; destruct (decide (n = m)) as [->|];
        rewrite ?Em, ?Eo; done.
  - repeat split; try (by rewrite app_nil_r);
      intros n; destruct (decide (n = m)) as [->|]; rewrite ?Em; done.
Qed.

Lemma collect_fold_spec (chapters : gmap Z str) (ctx : str)
    (completion : list Z) (b : batch) :
  let b' := fold_left (collect (futures chapters ctx)) completion b in
  (∀ n, results b' !! n
        = match (if decide (n ∈ completion)
                 then corrected Anthropic chapters ctx n
                 else None) with
          | Some text => Some text
          | None => results b !! n
          end)
  ∧ (∀ n, files b' !! n
        = match (if decide (n ∈ completion)
                 then saved Anthropic chapters ctx n
                 else None) with
          | Some text => Some text
          | None => files b !! n
          end)
  ∧ log b' = log b ++ flat_map (report Anthropic chapters ctx) completion
  ∧ requests b' = requests b.
Proof.
  revert b. induction completion as [|m completion IH]; intros b; simpl.
  - repeat split; try done. by rewrite app_nil_r.
  - destruct (IH (collect (futures chapters ctx) b m)) as (Hr & Hf & Hl & Hq).
    destruct (collect_spec chapters ctx b m) as (Hr1 & Hf1 & Hl1 & Hq1).
    repeat split.
    + intros n. rewrite Hr, Hr1.
      destruct (decide (n = m)) as [->|Hne].
      * rewrite (decide_True (P := m ∈ m :: completion)) by left.
        case_decide; by destruct (corrected _ _ _ m).
      * destruct (decide (n ∈ completion)) as [Hin|Hin].
        -- by rewrite (decide_True (P := n ∈ m :: completion)) by by right.
        -- rewrite (decide_False (P := n ∈ m :: completion)); [done|].
           by intros [?|?]%elem_of_cons.
    + intros n. rewrite Hf, Hf1.
      destruct (decide (n = m)) as [->|Hne].
      * rewrite (decide_True (P := m ∈ m :: completion)) by left.
        case_decide; by destruct (saved _ _ _ m).
      * destruct (decide (n ∈ completion)) as [Hin|Hin].
        -- by rewrite (decide_True (P := n ∈ m :: completion)) by by right.
        -- rewrite (decide_False (P := n ∈ m :: completion)); [done|].
           by intros [?|?]%elem_of_cons.
    + rewrite Hl, Hl1. by rewrite <- app_assoc.
    + by rewrite Hq, Hq1.
Qed.

Lemma corrected_dispatched (chapters : gmap Z str) (ctx : str) (n : Z)
    (text : str) :
  corrected Anthropic chapters ctx n = Some text → n ∈ dom chapters.
Proof.
  unfold corrected. destruct (chapters !! n) eqn:E; [|discriminate].
  intros _. apply elem_of_dom. by rewrite E.
Qed.

Lemma completion_order_elem (chapters : gmap Z str) (completion : list Z)
    (n : Z) :
  completion_order chapters completion →
  n ∈ completion ↔ n ∈ dom chapters.
Proof.
  unfold completion_order. intros ->. by rewrite elem_of_elements.
Qed.

Lemma process_results (chapters : gmap Z str) (ctx : str)
    (files0 : gmap Z str) (completion : list Z) (n : Z) :
  completion_order chapters completion →
  results (process_all_chapters_parallel Anthropic chapters ctx files0
             completion) !! n
  = corrected Anthropic chapters ctx n.
Proof.
  intros Hc. unfold process_all_chapters_parallel.
  destruct (collect_fold_spec chapters ctx completion
              (Batch ∅ files0 []
                 (flat_map (λ nc, calls (correct_chapter_with_claude
                    Anthropic nc.1 nc.2 ctx)) (map_to_list chapters))))
    as (Hr & _). rewrite Hr. simpl. rewrite lookup_empty.
  case_decide as Hin; [by destruct (corrected _ _ _ n)|].
  destruct (corrected _ _ _ n) eqn:E; [|done].
  apply corrected_dispatched in E.
  by apply (completion_order_elem _ _ _ Hc) in E.
Qed.

Lemma saved_corrected (chapters : gmap Z str) (ctx : str) (n : Z) :
  saved Anthropic chapters ctx n = None
  ↔ corrected Anthropic chapters ctx n = None.
Proof. unfold saved. by destruct (corrected _ _ _ n). Qed.

Lemma process_files (chapters : gmap Z str) (ctx : str)
    (files0 : gmap Z str) (completion : list Z) (n : Z) :
  completion_order chapters completion →
  files (process_all_chapters_parallel Anthropic chapters ctx files0
           completion) !! n
  = match saved Anthropic chapters ctx n with
    | Some text => Some text
    | None => files0 !! n
    end.
Proof.
  intros Hc. unfold process_all_chapters_parallel.
  destruct (collect_fold_spec chapters ctx completion
              (Batch ∅ files0 []
                 (flat_map (λ nc, calls (correct_chapter_with_claude
                    Anthropic nc.1 nc.2 ctx)) (map_to_list chapters))))
    as (_ & Hf & _). rewrite Hf. simpl.
  case_decide as Hin; [done|].
  destruct (saved _ _ _ n) eqn:E; [|done].
  destruct (corrected Anthropic chapters ctx n) eqn:E2;
    [|by apply saved_corrected in E2; congruence].
  apply corrected_dispatched in E2.
  by apply (completion_order_elem _ _ _ Hc) in E2.
Qed.

Lemma process_log (chapters : gmap Z str) (ctx : str)
    (files0 : gmap Z str) (completion : list Z) :
  log (process_all_chapters_parallel Anthropic chapters ctx files0
         completion)
  = flat_map (report Anthropic chapters ctx) completion.
Proof.
  unfold process_all_chapters_parallel.
  destruct (collect_fold_spec chapters ctx completion
              (Batch ∅ files0 []
                 (flat_map (λ nc, calls (correct_chapter_with_claude
                    Anthropic nc.1 nc.2 ctx)) (map_to_list chapters))))
    as (_ & _ & Hl & _). by rewrite Hl.
Qed.


Lemma report_dispatched (chapters : gmap Z str) (ctx : str) (n : Z) :
  n ∈ dom chapters →
  report Anthropic chapters ctx n
  = match corrected Anthropic chapters ctx n with
    | Some text =>
      if utf8_encodable text then [Completed n (length text)] else [Failed n]
    | None => [Failed n]
    end.
Proof.
  intros [content E]%elem_of_dom. unfold corrected, report. rewrite E.
  destruct (outcome _) as [[num text]|] eqn:Eo; [|done].
  by apply outcome_key in Eo as ->.
Qed.

Lemma report_about (chapters : gmap Z str) (ctx : str) (n : Z) (e : event) :
  e ∈ report Anthropic chapters ctx n → lesson_of e = n.
Proof.
  unfold report. destruct (chapters !! n) as [content|] eqn:E;
    [|by intros ?%elem_of_nil].
  destruct (outcome _) as [[num text]|] eqn:Eo.
  - apply outcome_key in Eo as ->.
    destruct (utf8_encodable text); by intros ->%list_elem_of_singleton.
  - by intros ->%list_elem_of_singleton.
Qed.

Lemma flat_map_length_one {A B : Type} (f : A → list B) (l : list A) :
  Forall (λ x, length (f x) = 1%nat) l → length (flat_map f l) = length l.
Proof.
  induction 1 as [|x l Hx _ IH]; simpl; [done|].
  rewrite length_app, Hx, IH. done.
Qed.

Lemma filter_all {A : Type} (f : A → bool) (l : list A) :
  Forall (λ x, f x = true) l → List.filter f l = l.
Proof. induction 1 as [|x l Hx _ IH]; simpl; [done|]. by rewrite Hx, IH. Qed.

Lemma filter_none {A : Type} (f : A → bool) (l : list A) :
  Forall (λ x, f x = false) l → List.filter f l = [].
Proof. induction 1 as [|x l Hx _ IH]; simpl; [done|]. by rewrite Hx, IH. Qed.

(** The lines about one lesson, each lesson completing once. *)
Lemma lines_of_reports (chapters : gmap Z str) (ctx : str)
    (completion : list Z) (n : Z) :
  NoDup completion → n ∈ completion →
  lines_of n (flat_map (report Anthropic chapters ctx) completion)
  = report Anthropic chapters ctx n.
Proof.
  unfold lines_of. intros Hnd Hin.
  induction Hnd as [|m completion Hm Hnd IH]; [by apply elem_of_nil in Hin|].
  cbn [flat_map]. rewrite List.filter_app.
  destruct (decide (m = n)) as [->|Hne].
  - rewrite filter_all, filter_none; [by rewrite app_nil_r| |].
    + apply Forall_forall. intros e He.
      apply list_elem_of_In, in_flat_map in He as (k & Hk & He).
      apply list_elem_of_In, report_about in He. apply Z.eqb_neq.
      apply list_elem_of_In in Hk. congruence.
    + apply Forall_forall. intros e He%report_about. by apply Z.eqb_eq.
  - rewrite filter_none.
    + apply IH. by apply elem_of_cons in Hin as [?|?].
    + apply Forall_forall. intros e He%report_about. apply Z.eqb_neq.
      congruence.
Qed.

(** C2 (amended). Whatever the completion order and whichever lessons
    fail, the map returned by [process_all_chapters_parallel] holds the
    corrected text of exactly the dispatched lessons whose own task
    returned, and nothing for a lesson whose task raised: that failure is
    only printed.  Every dispatched lesson gets exactly one printed line:
    the line of a completed lesson when its task returned and its text
    could be written, the line of a failed lesson otherwise.  A lesson
    whose text was returned but cannot be encoded for its file is in the map
    and is printed as failed. *)
Theorem batch_results_hold_successes (chapters : gmap Z str) (ctx : str)
    (files0 : gmap Z str) (completion : list Z) :
  completion_order chapters completion →
  let b := process_all_chapters_parallel Anthropic chapters ctx files0
             completion in
  (∀ n, results b !! n = corrected Anthropic chapters ctx n)
  ∧ (∀ n, n ∈ dom chapters →
       match results b !! n with
       | Some text =>
         lines_of n (log b)
         = if utf8_encodable text then [Completed n (length text)]
           else [Failed n]
       | None => lines_of n (log b) = [Failed n]
       end)
  ∧ length (log b) = size chapters.
Proof.
  intros Hc b. split; [|split].
  - intros n. by apply process_results.
  - intros n Hn. unfold b.
    rewrite (process_results chapters ctx files0 completion n Hc).
    rewrite process_log.
    assert (n ∈ completion) as Hin by by apply (completion_order_elem _ _ _ Hc).
    assert (NoDup completion) as Hnd
      by (unfold completion_order in Hc; rewrite Hc; apply NoDup_elements).
    rewrite lines_of_reports, report_dispatched by done.
    by destruct (corrected _ _ _ n).
  - unfold b. rewrite process_log, flat_map_length_one.
    + rewrite Hc. rewrite <- size_dom. done.
    + apply Forall_forall. intros n Hn.
      apply (completion_order_elem _ _ _ Hc) in Hn.
      rewrite report_dispatched by done.
      destruct (corrected _ _ _ n) as [text|]; [|done].
      by destruct (utf8_encodable text).
Qed.


End Orchestrator.

Lemma batch_results_hold_successes_witness :
  let b := process_all_chapters_parallel
             (Some (λ p, if (p_chapter p =? 2)%Z then None
                         else if (p_chapter p =? 3)%Z
                              then Some (u "ok" ++ [55296%N])
                              else Some (u "ok")))
             {[1%Z := u "one"; 2%Z := u "two"; 3%Z := u "three"]}
             (u "ctx") ∅
             (elements (dom ({[1%Z := u "one"; 2%Z := u "two";
                               3%Z := u "three"]} : gmap Z str))) in
  results b !! 1%Z = Some (u "ok") ∧ results b !! 2%Z = None
  ∧ results b !! 3%Z = Some (u "ok" ++ [55296%N])
  ∧ length (log b) = 3%nat.
Proof.
  pose proof (batch_results_hold_successes
    (Some (λ p, if (p_chapter p =? 2)%Z then None
                else if (p_chapter p =? 3)%Z then Some (u "ok" ++ [55296%N])
                     else Some (u "ok")))
    {[1%Z := u "one"; 2%Z := u "two"; 3%Z := u "three"]} (u "ctx") ∅
    (elements (dom ({[1%Z := u "one"; 2%Z := u "two"; 3%Z := u "three"]}
                      : gmap Z str))))
    as H.
  destruct H as (Hr & _ & Hl); [unfold completion_order; reflexivity|].
  cbv zeta. rewrite !Hr, Hl. repeat split; vm_compute; reflexivity.
Defined.

(** C2 as stated fails: three lessons are dispatched, the corrector fails
    for lesson 2, and the returned map has two entries, none for lesson 2. *)
Lemma failed_lesson_has_no_entry :
  let b := process_all_chapters_parallel
             (Some (λ p, if (p_chapter p =? 2)%Z then None else Some (u "ok")))
             {[1%Z := u "one"; 2%Z := u "two"; 3%Z := u "three"]}
             (u "ctx") ∅ [1; 2; 3]%Z in
  size (results b) = 2%nat ∧ results b !! 2%Z = None
  ∧ log b = [Completed 1 2; Failed 2; Completed 3 2].
Proof. vm_compute. done. Qed.

(** A text that cannot be written: the task of lesson 1 returns a text with
    a surrogate code point; the lesson is in the map, its file is left
    empty, and the printed line says that it failed. *)
Example unwritable_text_is_reported_failed :
  let b := process_all_chapters_parallel
             (Some (λ _, Some (u "ok" ++ [55296%N])))
             {[1%Z := u "one"]} (u "ctx") {[1%Z := u "old"]} [1%Z] in
  results b !! 1%Z = Some (u "ok" ++ [55296%N])
  ∧ files b !! 1%Z = Some []
  ∧ log b = [Failed 1].
Proof. vm_compute. done. Qed.



(** ** The combined document *)

Section Combined.

#[local] Open Scope Z_scope.

Lemma join_cons (sep x : str) (l : list str) :
  join sep (x :: l) = x ++ flat_map (λ y, sep ++ y) l.
Proof.
  revert x. induction l as [|y l IH]; intros x.
  - simpl. by rewrite app_nil_r.
  - change (join sep (x :: y :: l)) with (x ++ sep ++ join sep (y :: l)).
    rewrite (IH y). simpl. by rewrite <- app_assoc.
Qed.

Lemma combine_fold (files : gmap Z str) (indices : list Z)
    (all_content : list str) :
  fold_left (combine_step files) indices all_content
  = all_content
    ++ flat_map (λ lesson : Z * str, [divider; snd lesson; [newline]])
         (omap (λ i, match files !! i with
                     | Some stored => Some (i, read_text stored)
                     | None => None
                     end) indices).
Proof.
  revert all_content. induction indices as [|i indices IH];
    intros all_content; simpl.
  - by rewrite app_nil_r.
  - rewrite IH. unfold combine_step.
    destruct (files !! i); simpl; [|done]. reassoc.
Qed.

Lemma blocks_join (lessons : list (Z * str)) :
  flat_map (λ y, [newline] ++ y)
    (flat_map (λ lesson : Z * str, [divider; snd lesson; [newline]]) lessons)
  = flat_map lesson_block lessons.
Proof.
  induction lessons as [|[i content] lessons IH]; simpl; [done|].
  rewrite <- IH. unfold lesson_block, divider, rule. simpl. reassoc.
Qed.

Lemma combine_closed_form (files : gmap Z str) :
  combine_all_chapters files
  = banner_text ++ flat_map lesson_block (persisted files).
Proof.
  unfold combine_all_chapters. rewrite combine_fold. unfold header.
  cbn [app]. rewrite join_cons. cbn [flat_map].
  rewrite blocks_join. unfold banner_text, persisted. reassoc.
Qed.

Lemma elem_of_persisted (files : gmap Z str) (i : Z) (content : str) :
  (i, content) ∈ persisted files
  ↔ 1 ≤ i ≤ 15
    ∧ ∃ stored, files !! i = Some stored ∧ content = read_text stored.
Proof.
  unfold persisted. rewrite list_elem_of_omap. split.
  - intros (j & Hj & E). apply elem_of_seqZ in Hj.
    destruct (files !! j) as [stored|] eqn:Ej; [|discriminate].
    injection E as <- <-. split; [lia|]. by exists stored.
  - intros (Hi & stored & E & ->). exists i. rewrite E. split; [|done].
    apply elem_of_seqZ. lia.
Qed.

Lemma omap_fst_sorted (files : gmap Z str) (indices : list Z) :
  StronglySorted Z.lt indices →
  StronglySorted Z.lt
    (omap (λ i, match files !! i with
                | Some stored => Some (i, read_text stored)
                | None => None
                end) indices).*1.
Proof.
  induction 1 as [|i indices Hs IH Hall]; simpl; [constructor|].
  destruct (files !! i); simpl; [|done].
  constructor; [done|].
  apply Forall_forall. intros j Hj.
  apply list_elem_of_fmap in Hj as ([j' c] & -> & Hin).
  apply list_elem_of_omap in Hin as (k & Hk & E).
  destruct (files !! k); [|discriminate]. injection E as <- <-.
  rewrite Forall_forall in Hall. by apply Hall.
Qed.

Lemma persisted_ascending (files : gmap Z str) :
  StronglySorted Z.lt (persisted files).*1.
Proof.
  apply omap_fst_sorted.
  apply (bool_decide_unpack _). vm_compute. reflexivity.
Qed.

(** C6. The text written by [combine_all_chapters] is the header followed,
    for exactly the lessons of 1..15 whose per-lesson artifact exists and in
    ascending lesson number, by a divider line of 70 signs and the lesson's
    text; it is a function of the artifacts alone, so two completion orders
    of the same batch give the same document. *)
Theorem combined_document (files0 : gmap Z str) :
  combine_all_chapters files0
    = banner_text ++ flat_map lesson_block (persisted files0)
  ∧ (∀ i content, (i, content) ∈ persisted files0
       ↔ 1 ≤ i ≤ 15
         ∧ ∃ stored, files0 !! i = Some stored ∧ content = read_text stored)
  ∧ StronglySorted Z.lt (persisted files0).*1
  ∧ length rule = 70%nat
  ∧ (∀ Anthropic chapters ctx order1 order2,
       completion_order chapters order1 →
       completion_order chapters order2 →
       combine_all_chapters
         (files (process_all_chapters_parallel Anthropic chapters ctx
                   files0 order1))
       = combine_all_chapters
           (files (process_all_chapters_parallel Anthropic chapters ctx
                     files0 order2))).
Proof.
  split; [apply combine_closed_form|].
  split; [apply elem_of_persisted|].
  split; [apply persisted_ascending|].
  split; [reflexivity|].
  intros mc chapters ctx order1 order2 H1 H2. f_equal.
  apply map_eq. intros n. by rewrite !process_files.
Qed.

Lemma combined_document_witness :
  combine_all_chapters
    (files (process_all_chapters_parallel
              (Some (λ p, if (p_chapter p =? 2)%Z then None
                         else Some (p_content p)))
              {[1 := u "one"; 2 := u "two"; 3 := u "three"]} (u "ctx") ∅
              (elements (dom ({[1 := u "one"; 2 := u "two"; 3 := u "three"]}
                                : gmap Z str)))))
  = combine_all_chapters
      (files (process_all_chapters_parallel
                (Some (λ p, if (p_chapter p =? 2)%Z then None
                            else Some (p_content p)))
                {[1 := u "one"; 2 := u "two"; 3 := u "three"]} (u "ctx") ∅
                (reverse
                   (elements (dom ({[1 := u "one"; 2 := u "two";
                                     3 := u "three"]} : gmap Z str)))))).
Proof.
  apply (combined_document ∅).
  - unfold completion_order. reflexivity.
  - unfold completion_order. apply reverse_Permutation.
Defined.

(** Scenario B: three lessons, the corrector fails for lesson 2, the
    futures complete in the order 3, 1, 2. *)
Example scenario_failed_lesson_two :
  let b := process_all_chapters_parallel
             (Some (λ p, if (p_chapter p =? 2)%Z then None
                         else Some (p_content p)))
             {[1 := u "one"; 2 := u "two"; 3 := u "three"]} (u "ctx") ∅
             [3; 2; 1] in
  files b = {[1 := u "one"; 3 := u "three"]}
  ∧ combine_all_chapters (files b)
    = banner_text ++ lesson_block (1, u "one") ++ lesson_block (3, u "three").
Proof. vm_compute. done. Qed.

End Combined.

(** ** The record parser *)

Section Parser.

(** C5. [parse_vocab_line] tries the pipe-separated form first and the
    first form that matches gives the record: a line the pipe-separated form
    accepts is parsed by it whatever the space-separated forms would give
    (the line "1. 你 nǐ pron. you | nǐ | you" matches both, with different
    results); and the line "3. 谢谢 | xièxie | v. | to thank" parses to the
    word 谢谢, pinyin xièxie, part of speech verb and meaning "to thank",
    the abbreviation being looked up in lower case. *)
Theorem delimited_form_first (line : str) (e : parsed) :
  parse_delimited line = Some e →
  parse_vocab_line line = Some e
  ∧ (parse_tagged (u "1. 你 nǐ pron. you | nǐ | you")
       = Some (Parsed (u "你") (u "nǐ") (u "pronoun") (u "you | nǐ | you"))
     ∧ parse_vocab_line (u "1. 你 nǐ pron. you | nǐ | you")
       = Some (Parsed (u "你 nǐ pron. you") (u "nǐ") (u "other") (u "you")))
  ∧ parse_vocab_line (u "3. 谢谢 | xièxie | v. | to thank")
    = Some (Parsed (u "谢谢") (u "xièxie") (u "verb") (u "to thank"))
  ∧ normalize_pos (u "V.") = u "verb".
Proof.
  intros H. split; [|split; [split|split]].
  - unfold parse_vocab_line. by rewrite H.
  - vm_compute. reflexivity.
  - vm_compute. reflexivity.
  - vm_compute. reflexivity.
  - vm_compute. reflexivity.
Qed.

Lemma delimited_form_first_witness :
  parse_vocab_line (u "3. 谢谢 | xièxie | v. | to thank")
  = Some (Parsed (u "谢谢") (u "xièxie") (u "verb") (u "to thank")).
Proof.
  apply (delimited_form_first (u "3. 谢谢 | xièxie | v. | to thank")).
  vm_compute. reflexivity.
Defined.

(** The space-separated forms keep their order too. *)
Lemma tagged_form_second (line : str) (e : parsed) :
  parse_delimited line = None → parse_tagged line = Some e →
  parse_vocab_line line = Some e.
Proof. unfold parse_vocab_line. by intros -> ->. Qed.

Example parse_tagged_line :
  parse_vocab_line (u "1. 你 nǐ pron. (singular) you")
  = Some (Parsed (u "你") (u "nǐ") (u "pronoun") (u "(singular) you")).
Proof. vm_compute. reflexivity. Qed.

Example parse_untagged_line :
  parse_vocab_line (u "3. 不客气 bú kèqi you're welcome")
  = Some (Parsed (u "不客气") (u "bú kèqi") (u "other") (u "you're welcome")).
Proof. vm_compute. reflexivity. Qed.

End Parser.

(** ** Ordering of the output artifacts *)

Section Ordering.

#[local] Open Scope Z_scope.

Lemma str_ltb_asym (a b : str) : str_ltb a b = true → str_ltb b a = false.
Proof.
  revert b. induction a as [|x a IH]; intros [|y b]; simpl; try done.
  destruct (N.ltb_spec x y), (N.ltb_spec y x); try done; try lia.
  apply IH.
Qed.

Lemma key_ltb_asym (a b : entry) : key_ltb a b = true → key_ltb b a = false.
Proof.
  unfold key_ltb.
  destruct (Z.eqb_spec (chapter a) (chapter b)) as [E|E].
  - rewrite E, Z.eqb_refl. apply str_ltb_asym.
  - destruct (Z.eqb_spec (chapter b) (chapter a)); [congruence|].
    intros H%Z.ltb_lt. apply Z.ltb_ge. lia.
Qed.

Lemma key_ltb_false (a b : entry) :
  key_ltb b a = false → key_ordered a b.
Proof.
  unfold key_ltb, key_ordered.
  destruct (Z.eqb_spec (chapter b) (chapter a)) as [E|E].
  - intros H. right. done.
  - intros H%Z.ltb_ge. left. lia.
Qed.

Lemma sort_insert_hd (x a : entry) (l : list entry) :
  HdRel key_ordered a l → key_ltb a x = true →
  HdRel key_ordered a (sort_insert x l).
Proof.
  intros Hl Hax. destruct l as [|y l]; simpl.
  - constructor. apply key_ltb_false. by apply key_ltb_asym.
  - destruct (key_ltb y x).
    + constructor. by inversion Hl.
    + constructor. apply key_ltb_false. by apply key_ltb_asym.
Qed.

Lemma sort_insert_sorted (x : entry) (l : list entry) :
  Sorted key_ordered l → Sorted key_ordered (sort_insert x l).
Proof.
  induction 1 as [|y l Hs IH Hhd]; simpl.
  - by repeat constructor.
  - destruct (key_ltb y x) eqn:E.
    + constructor; [done|]. by apply sort_insert_hd.
    + constructor; [by constructor|]. constructor. by apply key_ltb_false.
Qed.

Lemma sort_by_key_sorted (l : list entry) : Sorted key_ordered (sort_by_key l).
Proof.
  induction l as [|x l IH]; simpl; [constructor|].
  by apply sort_insert_sorted.
Qed.

Lemma sort_insert_perm (x : entry) (l : list entry) :
  sort_insert x l ≡ₚ x :: l.
Proof.
  induction l as [|y l IH]; simpl; [done|].
  destruct (key_ltb y x); [|done].
  rewrite IH. apply Permutation_swap.
Qed.

Lemma sort_by_key_perm (l : list entry) : sort_by_key l ≡ₚ l.
Proof.
  induction l as [|x l IH]; simpl; [done|].
  by rewrite sort_insert_perm, IH.
Qed.

End Ordering.

(** ** De-duplication *)

Section Dedup.

#[local] Open Scope Z_scope.

Lemma words_app (l1 l2 : list entry) : words (l1 ++ l2) = words l1 ++ words l2.
Proof. unfold words. apply map_app. Qed.

Lemma snoc_split {A : Type} (done pre post : list A) (e x : A) :
  done ++ [e] = pre ++ x :: post →
  (post = [] ∧ pre = done ∧ x = e)
  ∨ (∃ post', post = post' ++ [e] ∧ done = pre ++ x :: post').
Proof.
  destruct post as [|y post _] using rev_ind.
  - intros [-> ->]%app_inj_tail. by left.
  - rewrite app_comm_cons, app_assoc. intros [-> ->]%app_inj_tail.
    right. by exists post.
Qed.

(** What the de-duplicating loop maintains over the records read so far. *)
Lemma dedup_run_inv (seed : gset str) (done : list entry) :
  seen_words (dedup_run seed done) = seed ∪ list_to_set (words done)
  ∧ first_occurrence_wins seed done (accepted (dedup_run seed done))
      (skipped (dedup_run seed done)).
Proof.
  induction done as [|e done IH] using rev_ind.
  - split; [simpl; set_solver|].
    repeat split; simpl; try done.
    + constructor.
    + intros e. by rewrite elem_of_nil.
    + intros pre e post Hs. by destruct pre.
    + intros pre e post Hs. by destruct pre.
  - unfold dedup_run. rewrite fold_left_app. simpl.
    fold (dedup_run seed done).
    destruct IH as (Hseen & Hnd & Hsub & Hseed & Hfirst & Hdrop & Hlen).
    assert (∀ w, w ∈ words (accepted (dedup_run seed done)) → w ∈ words done)
      as Hacc.
    { intros w Hw. unfold words in *.
      apply list_elem_of_In, in_map_iff in Hw as (x & <- & Hx).
      apply list_elem_of_In, in_map_iff. exists x. split; [done|].
      apply list_elem_of_In. eapply elem_of_sublist; [|done].
      by apply list_elem_of_In. }
    unfold dedup_step. case_bool_decide as Hin; simpl.
    + split; [rewrite Hseen, words_app; simpl; set_solver|].
      repeat split; try done.
      * by apply sublist_inserts_r.
      * intros pre x post Hs Hx1 Hx2.
        apply snoc_split in Hs as [(-> & -> & ->)|(post' & -> & ->)].
        -- exfalso. rewrite Hseen in Hin.
           apply elem_of_union in Hin as [?|Hw]; [done|].
           by apply elem_of_list_to_set in Hw.
        -- by eapply Hfirst.
      * intros pre x post Hs Hx.
        apply snoc_split in Hs as [(-> & -> & ->)|(post' & -> & ->)].
        -- apply elem_of_app. right. by left.
        -- apply elem_of_app. left. by eapply Hdrop.
      * rewrite !length_app. simpl. lia.
    + split; [rewrite Hseen, words_app; simpl; set_solver|].
      assert (word (fields e) ∉ seed) as He1 by (rewrite Hseen in Hin; set_solver).
      assert (word (fields e) ∉ words done) as He2
        by (rewrite Hseen in Hin; set_solver).
      repeat split.
      * rewrite words_app. simpl. apply NoDup_app. split; [done|].
        split; [|apply NoDup_singleton].
        intros w Hw ->%list_elem_of_singleton. by apply He2, Hacc.
      * by apply sublist_app.
      * intros x [Hx| ->%list_elem_of_singleton]%elem_of_app; [by apply Hseed|done].
      * intros pre x post Hs Hx1 Hx2.
        apply snoc_split in Hs as [(-> & -> & ->)|(post' & -> & ->)].
        -- apply elem_of_app. right. by left.
        -- apply elem_of_app. left. by eapply Hfirst.
      * intros pre x post Hs Hx.
        apply snoc_split in Hs as [(-> & -> & ->)|(post' & -> & ->)].
        -- by destruct Hx.
        -- by eapply Hdrop.
      * rewrite !length_app. simpl. lia.
Qed.

Lemma dedup_fold_chapter (i : Z) (entries : list entry) (st : dedup_state) :
  Forall (λ e, chapter e = i) entries →
  fold_left (dedup_step i) entries st
  = fold_left (λ st e, dedup_step (chapter e) st e) entries st.
Proof.
  intros H. revert st. induction H as [|e entries He _ IH]; intros st; simpl.
  - done.
  - by rewrite He, IH.
Qed.

Lemma vocab_of_line_chapter (i : Z) (line : str) :
  Forall (λ e, chapter e = i) (vocab_of_line i line).
Proof.
  unfold vocab_of_line. destruct (_ || _); [constructor|].
  destruct (Re.rmatch _ _); [|constructor].
  destruct (parse_vocab_line line); by repeat constructor.
Qed.

Lemma extract_vocab_chapter (content : str) (i : Z) :
  Forall (λ e, chapter e = i) (extract_vocab_from_chapter content i).
Proof.
  unfold extract_vocab_from_chapter.
  induction (split newline (read_text content)) as [|line lines IH]; simpl;
    [constructor|].
  apply Forall_app. split; [apply vocab_of_line_chapter|done].
Qed.

Lemma vocab_fold_stream (files : gmap Z str) (indices : list Z)
    (st : dedup_state) :
  fold_left (vocab_chapter_step files) indices st
  = fold_left (λ st e, dedup_step (chapter e) st e)
      (flat_map (λ i, match files !! i with
                      | Some stored => extract_vocab_from_chapter stored i
                      | None => []
                      end) indices) st.
Proof.
  revert st. induction indices as [|i indices IH]; intros st; simpl; [done|].
  rewrite fold_left_app, IH. unfold vocab_chapter_step.
  destruct (files !! i); simpl; [|done].
  by rewrite dedup_fold_chapter by apply extract_vocab_chapter.
Qed.

Lemma extract_all_chapters_stream (files : gmap Z str) :
  extract_all_chapters_run files = dedup_run ∅ (vocab_stream files).
Proof. apply vocab_fold_stream. Qed.

Section AtomStream.

Variable ask_atoms : Z → str → gset str → option (list parsed).

Lemma extract_atoms_chapter (i : Z) (content : str) (seed : gset str) :
  Forall (λ e, chapter e = i) (extract_atoms_with_claude ask_atoms i content seed).
Proof.
  unfold extract_atoms_with_claude. destruct (negb _); [constructor|].
  destruct (ask_atoms _ _ _) as [atoms|]; [|constructor].
  induction atoms; simpl; by constructor.
Qed.

Lemma atom_chapters_fold (files : gmap Z str) (indices : list Z)
    (m : gmap Z str) (i : Z) :
  fold_left (λ chapters i,
               let content := read_chapter files i in
               if truthy content then <[i := content]> chapters
               else chapters) indices m !! i
  = match (if decide (i ∈ indices)
           then (if truthy (read_chapter files i)
                 then Some (read_chapter files i) else None)
           else None) with
    | Some content => Some content
    | None => m !! i
    end.
Proof.
  revert m. induction indices as [|j indices IH]; intros m; simpl; [done|].
  rewrite IH. destruct (decide (i = j)) as [->|Hne].
  - rewrite (decide_True (P := j ∈ j :: indices)) by left.
    destruct (truthy (read_chapter files j)) eqn:Et.
    + rewrite lookup_insert_eq. by case_decide.
    + by case_decide.
  - assert ((if truthy (read_chapter files j)
             then <[j := read_chapter files j]> m else m) !! i = m !! i)
      as -> by (destruct (truthy (read_chapter files j));
                [by apply lookup_insert_ne|done]).
    destruct (decide (i ∈ indices)) as [Hin|Hin].
    + by rewrite (decide_True (P := i ∈ j :: indices)) by by right.
    + by rewrite (decide_False (P := i ∈ j :: indices))
        by by intros [?|?]%elem_of_cons.
Qed.

Lemma atom_chapters_range (files : gmap Z str) (i : Z) :
  i ∈ dom (atom_chapters files) → i ∈ seqZ 1 15.
Proof.
  intros [content H]%elem_of_dom. unfold atom_chapters in H.
  rewrite atom_chapters_fold in H.
  case_decide; [done|]. by rewrite lookup_empty in H.
Qed.

Lemma collect_atoms_fold (F : gmap Z (list entry)) (completion : list Z)
    (m : gmap Z (list entry)) (n : Z) :
  fold_left (collect_atoms F) completion m !! n
  = match (if decide (n ∈ completion) then F !! n else None) with
    | Some atoms => Some atoms
    | None => m !! n
    end.
Proof.
  revert m. induction completion as [|j completion IH]; intros m; simpl;
    [done|].
  rewrite IH. unfold collect_atoms.
  destruct (decide (n = j)) as [->|Hne].
  - rewrite (decide_True (P := j ∈ j :: completion)) by left.
    destruct (F !! j) eqn:E.
    + rewrite lookup_insert_eq. by case_decide.
    + by case_decide.
  - assert (match F !! j with
            | Some atoms => <[j := atoms]> m
            | None => m
            end !! n = m !! n)
      as -> by (destruct (F !! j); [by apply lookup_insert_ne|done]).
    destruct (decide (n ∈ completion)) as [Hin|Hin].
    + by rewrite (decide_True (P := n ∈ j :: completion)) by by right.
    + by rewrite (decide_False (P := n ∈ j :: completion))
        by by intros [?|?]%elem_of_cons.
Qed.

Lemma StronglySorted_sublist {A : Type} (R : relation A) (l1 l2 : list A) :
  l1 `sublist_of` l2 → StronglySorted R l2 → StronglySorted R l1.
Proof.
  induction 1 as [|x l1 l2 Hsub IH|x l1 l2 Hsub IH]; intros Hs.
  - constructor.
  - apply StronglySorted_inv in Hs as [Hs Hall].
    constructor; [by apply IH|].
    apply Forall_forall. intros y Hy. rewrite Forall_forall in Hall.
    apply Hall. by eapply elem_of_sublist.
  - apply StronglySorted_inv in Hs as [Hs _]. by apply IH.
Qed.

Lemma sorted_keys (D : gset Z) :
  (∀ i, i ∈ D → i ∈ seqZ 1 15) →
  merge_sort Z.le (elements D) = filter (λ i, i ∈ D) (seqZ 1 15).
Proof.
  intros HD. apply (Sorted_unique Z.le).
  - apply Sorted_merge_sort. apply _.
  - apply StronglySorted_Sorted.
    apply (StronglySorted_sublist _ _ (seqZ 1 15)); [apply sublist_filter|].
    apply (bool_decide_unpack _). vm_compute. reflexivity.
  - rewrite merge_sort_Permutation. apply NoDup_Permutation.
    + apply NoDup_elements.
    + apply NoDup_filter, NoDup_seqZ.
    + intros i. rewrite elem_of_elements, list_elem_of_filter.
      split; [intros Hi; split; [done|by apply HD]|by intros [? _]].
Qed.

Lemma atom_fold_filter (CR : gmap Z (list entry)) (indices : list Z)
    (st : dedup_state) :
  fold_left (atom_chapter_step CR) (filter (λ i, i ∈ dom CR) indices) st
  = fold_left (atom_chapter_step CR) indices st.
Proof.
  revert st. induction indices as [|i indices IH]; intros st; [done|].
  rewrite filter_cons. case_decide as Hi; simpl; [by rewrite IH|].
  rewrite IH. f_equal. unfold atom_chapter_step.
  apply not_elem_of_dom in Hi. by rewrite Hi.
Qed.

Lemma atom_fold_stream (chapters : gmap Z str) (seed : gset str)
    (indices : list Z) (st : dedup_state) :
  fold_left (atom_chapter_step
               (map_imap (λ num content,
                  Some (extract_atoms_with_claude ask_atoms num content seed))
                  chapters)) indices st
  = fold_left (λ st e, dedup_step (chapter e) st e)
      (flat_map (λ i, match chapters !! i with
                      | Some content =>
                        extract_atoms_with_claude ask_atoms i content seed
                      | None => []
                      end) indices) st.
Proof.
  revert st. induction indices as [|i indices IH]; intros st; simpl; [done|].
  rewrite fold_left_app, IH. unfold atom_chapter_step.
  rewrite map_lookup_imap. destruct (chapters !! i); simpl; [|done].
  by rewrite dedup_fold_chapter by apply extract_atoms_chapter.
Qed.

Lemma process_all_chapters_stream (vocab : option (list entry))
    (files : gmap Z str) (completion : list Z) :
  completion_order (atom_chapters files) completion →
  process_all_chapters_run ask_atoms vocab files completion
  = dedup_run (load_existing_hsk_words vocab)
      (atom_stream ask_atoms vocab files).
Proof.
  intros Hc. unfold process_all_chapters_run, dedup_run, atom_stream.
  set (seed := load_existing_hsk_words vocab).
  set (F := map_imap _ (atom_chapters files)).
  assert (fold_left (collect_atoms F) completion ∅ = F) as ->.
  { apply map_eq. intros n. rewrite collect_atoms_fold, lookup_empty.
    case_decide as Hin; [by destruct (F !! n)|].
    destruct (F !! n) eqn:E; [|done]. exfalso. apply Hin.
    apply (completion_order_elem _ _ _ Hc). unfold F in E.
    rewrite map_lookup_imap in E. apply elem_of_dom.
    by destruct (atom_chapters files !! n). }
  assert (dom F = dom (atom_chapters files)) as HD.
  { apply set_eq. intros n. rewrite !elem_of_dom. unfold F.
    rewrite map_lookup_imap. destruct (atom_chapters files !! n); simpl.
    - split; intros _; by eexists.
    - split; by intros [? ?]. }
  rewrite sorted_keys by (rewrite HD; apply atom_chapters_range).
  rewrite atom_fold_filter. apply atom_fold_stream.
Qed.

End AtomStream.

(** C1. In both extractors the first record of a word is the one kept.
    The records accepted by [extract_all_chapters] have pairwise different
    words, are records of the stream unchanged and in stream order, and
    contain every record of the stream that is the first with its word;
    every later record of a word gets one "Skipping duplicate" report.  The
    atom extractor does the same with the words of the vocabulary file
    already known: no accepted atom has a word of that file.  With 五 in
    the vocabulary file, a proposed atom 五 with another pinyin and meaning
    is dropped and reported, and the atom after it is kept. *)
Theorem first_occurrence_kept (files : gmap Z str)
    (ask_atoms : Z → str → gset str → option (list parsed))
    (vocab : option (list entry)) (completion : list Z) :
  completion_order (atom_chapters files) completion →
  first_occurrence_wins ∅ (vocab_stream files) (extract_all_chapters files)
    (skipped (extract_all_chapters_run files))
  ∧ first_occurrence_wins (load_existing_hsk_words vocab)
      (atom_stream ask_atoms vocab files)
      (process_all_chapters ask_atoms vocab files completion)
      (skipped (process_all_chapters_run ask_atoms vocab files completion))
  ∧ (let five := Parsed (u "五") (u "wǔ") (u "numeral") (u "five") in
     let other_five := Parsed (u "五") (u "wu") (u "noun") (u "hand of five") in
     let six := Parsed (u "六") (u "liù") (u "numeral") (u "six") in
     let run := process_all_chapters_run (λ _ _ _, Some [other_five; six])
                  (Some [Entry five 2 (u "hsk1") None])
                  {[3 := u "lesson three"]} [3] in
     accepted run = [Entry six 3 (u "hsk1") (Some (u "atom"))]
     ∧ skipped run = [SkippingDuplicate (u "五") 3]).
Proof.
  intros Hc. split; [|split].
  - unfold extract_all_chapters. rewrite extract_all_chapters_stream.
    apply dedup_run_inv.
  - unfold process_all_chapters.
    rewrite process_all_chapters_stream by done.
    apply dedup_run_inv.
  - vm_compute. done.
Qed.

Lemma first_occurrence_kept_witness :
  first_occurrence_wins ∅
    (vocab_stream {[1 := u "1. 你 | nǐ | pron. | you" ++ [newline]
                         ++ u "2. 你 | nín | pron. | thou"]})
    (extract_all_chapters
       {[1 := u "1. 你 | nǐ | pron. | you" ++ [newline]
               ++ u "2. 你 | nín | pron. | thou"]})
    (skipped (extract_all_chapters_run
       {[1 := u "1. 你 | nǐ | pron. | you" ++ [newline]
               ++ u "2. 你 | nín | pron. | thou"]})).
Proof.
  refine (proj1 (first_occurrence_kept
           {[1 := u "1. 你 | nǐ | pron. | you" ++ [newline]
                   ++ u "2. 你 | nín | pron. | thou"]}
           (λ _ _ _, None) None
           (elements (dom (atom_chapters
              {[1 := u "1. 你 | nǐ | pron. | you" ++ [newline]
                      ++ u "2. 你 | nín | pron. | thou"]}))) _)).
  unfold completion_order. reflexivity.
Defined.

(** The two records of 你 in one chapter: the first is kept, the second is
    reported. *)
Example duplicate_word_in_chapter :
  let run := extract_all_chapters_run
               {[1 := u "1. 你 | nǐ | pron. | you" ++ [newline]
                       ++ u "2. 你 | nín | pron. | thou"]} in
  accepted run
    = [Entry (Parsed (u "你") (u "nǐ") (u "pronoun") (u "you")) 1
             (u "hsk1") None]
  ∧ skipped run = [SkippingDuplicate (u "你") 1].
Proof. vm_compute. done. Qed.

End Dedup.

(** ** The output artifacts *)

Section Artifacts.

#[local] Open Scope Z_scope.

Lemma same_chapter_sorted (i : Z) (l : list entry) :
  Forall (λ e, chapter e = i) l → StronglySorted chapter_le l.
Proof.
  induction 1 as [|e l He Hl IH]; constructor; [done|].
  eapply Forall_impl; [exact Hl|]. intros x Hx. simpl in Hx.
  unfold chapter_le. lia.
Qed.

Lemma stream_chapter_sorted (f : Z → list entry) (indices : list Z) :
  (∀ i, Forall (λ e, chapter e = i) (f i)) →
  StronglySorted Z.le indices →
  StronglySorted chapter_le (flat_map f indices)
  ∧ Forall (λ e, chapter e ∈ indices) (flat_map f indices).
Proof.
  intros Hf. induction 1 as [|i indices Hs IH Hall]; simpl.
  - split; constructor.
  - destruct IH as [IH1 IH2]. split.
    + apply StronglySorted_app_2; [|by eapply same_chapter_sorted|done].
      intros x y Hx Hy. unfold chapter_le.
      pose proof (Hf i) as Hi.
      rewrite Forall_forall in Hi. rewrite Forall_forall in IH2.
      rewrite Forall_forall in Hall.
      rewrite (Hi x Hx). by apply Hall, IH2.
    + apply Forall_app. split.
      * eapply Forall_impl; [apply Hf|]. intros x ->. by left.
      * eapply Forall_impl; [exact IH2|]. intros x Hx. by right.
Qed.

Lemma vocab_stream_sorted (files : gmap Z str) :
  StronglySorted chapter_le (vocab_stream files).
Proof.
  apply stream_chapter_sorted.
  - intros i. destruct (files !! i); [apply extract_vocab_chapter|constructor].
  - apply (bool_decide_unpack _). vm_compute. reflexivity.
Qed.

(** C7 (amended). The atom artifact is the accepted atoms sorted by
    (chapter, word): of two consecutive records the first has the smaller
    chapter, or the same chapter and a word that is not greater.  The
    vocabulary artifact is written unsorted: it is in ascending chapter
    order, the records of a chapter in the order of their lines. *)
Theorem artifacts_order (files : gmap Z str)
    (ask_atoms : Z → str → gset str → option (list parsed))
    (vocab : option (list entry)) (completion : list Z) :
  Sorted key_ordered (atoms_artifact ask_atoms vocab files completion)
  ∧ atoms_artifact ask_atoms vocab files completion
    ≡ₚ process_all_chapters ask_atoms vocab files completion
  ∧ Sorted chapter_le (vocabulary_artifact files)
  ∧ vocabulary_artifact files `sublist_of` vocab_stream files.
Proof.
  split; [apply sort_by_key_sorted|].
  split; [apply sort_by_key_perm|].
  assert (vocabulary_artifact files `sublist_of` vocab_stream files) as Hsub.
  { unfold vocabulary_artifact, extract_all_chapters.
    rewrite extract_all_chapters_stream.
    by destruct (dedup_run_inv ∅ (vocab_stream files)) as (_ & _ & ? & _). }
  split; [|done].
  apply StronglySorted_Sorted.
  eapply StronglySorted_sublist; [done|apply vocab_stream_sorted].
Qed.

(** C7 as stated fails for the vocabulary artifact: chapter 1 lists 是
    before 你, and the artifact keeps that order although 你 < 是. *)
Lemma vocabulary_artifact_not_sorted_by_word :
  ¬ Sorted key_ordered
      (vocabulary_artifact
         {[1 := u "1. 是 | shì | v. | to be" ++ [newline]
                 ++ u "2. 你 | nǐ | pron. | you"]}).
Proof.
  assert (vocabulary_artifact
            {[1 := u "1. 是 | shì | v. | to be" ++ [newline]
                    ++ u "2. 你 | nǐ | pron. | you"]}
          = [Entry (Parsed (u "是") (u "shì") (u "verb") (u "to be")) 1
                   (u "hsk1") None;
             Entry (Parsed (u "你") (u "nǐ") (u "pronoun") (u "you")) 1
                   (u "hsk1") None]) as ->
    by (vm_compute; reflexivity).
  intros H. apply Sorted_inv in H as [_ H]. apply HdRel_inv in H.
  destruct H as [H|[_ H]]; simpl in H; [lia|].
  vm_compute in H. discriminate.
Qed.

Example atoms_sorted_by_word :
  words (atoms_artifact
           (λ _ _ _, Some [Parsed (u "是") (u "shì") (u "verb") (u "to be");
                           Parsed (u "你") (u "nǐ") (u "pronoun") (u "you")])
           None {[1 := u "lesson one"]} [1])
  = [u "你"; u "是"].
Proof. vm_compute. reflexivity. Qed.

End Artifacts.

(** * Further properties *)

(** ** The marker detector *)

Section Detector.

#[local] Open Scope Z_scope.

Lemma star_loop_some {A : Type}
    (body : Re.mstate → (Re.mstate → option A) → option A)
    (k : Re.mstate → option A) (fuel : nat) (st : Re.mstate) :
  (∀ st', is_Some (k st')) → is_Some (Re.star_loop body k fuel st).
Proof.
  intros Hk. destruct fuel as [|fuel]; simpl; [done|].
  by destruct (body st _).
Qed.

(** The matcher on the marker pattern, at one position. *)
Lemma exec_lesson_marker (i : nat) (s : str) :
  Re.exec lesson_marker (Re.MState i s []) (λ st, Some (Re.groups st))
  = match s with
    | c1 :: c2 :: c3 :: c4 :: _ =>
      if isdecimal c1 && isdecimal c2 && chr_eqb c3 (ch "-") && isdecimal c4
      then Some [(1%nat, [c1; c2])]
      else None
    | _ => None
    end.
Proof.
  unfold lesson_marker, chr_eqb.
  cbn [Re.Seqs Re.exec Re.digit Re.Chr Re.Plus Re.rest].
  destruct s as [|c1 s]; [done|]. cbn [Re.rest Re.pos Re.groups].
  destruct s as [|c2 s]; [by destruct (isdecimal c1)|].
  cbn [Re.rest Re.pos Re.groups].
  destruct s as [|c3 s]; [by destruct (isdecimal c1), (isdecimal c2)|].
  cbn [Re.set_group Re.rest Re.pos Re.groups]. unfold chr_eqb.
  rewrite (N.eqb_sym (ch "-") c3).
  destruct s as [|c4 s];
    [by destruct (isdecimal c1), (isdecimal c2), (c3 =? ch "-")%N|].
  cbn [Re.rest Re.pos Re.groups].
  destruct (isdecimal c1); [|done]. destruct (isdecimal c2); [|done].
  destruct (c3 =? ch "-")%N; [|done]. destruct (isdecimal c4); [|done].
  cbn [andb].
  match goal with
  | |- Re.star_loop ?b ?k ?f ?st = _ =>
    destruct (star_loop_some b k f st) as [g Hg]; [by eexists|];
    rewrite Hg;
    apply (star_loop_groups b k) in Hg as (st' & Hg & E)
  end.
  - injection Hg as <-. rewrite E. simpl.
    replace (S (S i) - i)%nat with 2%nat by lia. done.
  - intros st k' a. apply (exec_group_free Re.digit I).
Qed.

Lemma search_first_marker (i : nat) (s : str) :
  Re.search_from lesson_marker i s
  = match first_marker s with
    | Some (c1, c2) => Some [(1%nat, [c1; c2])]
    | None => None
    end.
Proof.
  revert i. induction s as [|c1 s IH]; intros i; cbn [Re.search_from];
    rewrite exec_lesson_marker; [done|].
  cbn [first_marker]. destruct s as [|c2 [|c3 [|c4 s]]]; try apply IH.
  destruct (_ && _); [done|apply IH].
Qed.

Lemma extract_first_marker (s : str) :
  extract_lesson_number s
  = match first_marker s with
    | Some (c1, c2) => int [c1; c2]
    | None => None
    end.
Proof.
  unfold extract_lesson_number, Re.search. rewrite search_first_marker.
  by destruct (first_marker s) as [[c1 c2]|].
Qed.

(** No decimal digit is white space. *)
Lemma decimal_not_space (c : char) : isdecimal c = true → isspace c = false.
Proof.
  unfold isdecimal, decimal_value.
  match goal with
  | |- context [List.find ?f ?l] => destruct (List.find f l) as [b|] eqn:E
  end; [|discriminate].
  intros _. apply List.find_some in E as [Hb E].
  unfold in_range in E. apply andb_true_iff in E as [E1 E2].
  apply N.leb_le in E1, E2.
  unfold isspace, in_range, chr_eqb.
  unfold decimal_blocks in Hb. simpl in Hb.
  repeat (destruct Hb as [<-|Hb];
    [repeat (apply orb_false_intro);
       try apply andb_false_iff; rewrite ?N.leb_gt, ?N.eqb_neq; lia|]).
  done.
Qed.

Lemma dash_not_space : isspace (ch "-") = false.
Proof. reflexivity. Qed.

Lemma lstrip_split (s : str) :
  ∃ ws, s = ws ++ lstrip s ∧ Forall (λ c, isspace c = true) ws.
Proof.
  induction s as [|c s (ws & E & Hws)]; simpl.
  - by exists [].
  - destruct (isspace c) eqn:Ec.
    + exists (c :: ws). split; [simpl; congruence|by constructor].
    + by exists [].
Qed.

Lemma rstrip_split (s : str) :
  ∃ ws, s = rstrip s ++ ws ∧ Forall (λ c, isspace c = true) ws.
Proof.
  unfold rstrip. destruct (lstrip_split (rev s)) as (ws & E & Hws).
  exists (rev ws). split; [|by apply Forall_rev].
  rewrite <- rev_app_distr, <- E. by rewrite rev_involutive.
Qed.

Lemma first_marker_spaces (ws : str) :
  Forall (λ c, isspace c = true) ws → first_marker ws = None.
Proof.
  induction 1 as [|c ws Hc _ IH]; [done|]. cbn [first_marker].
  destruct ws as [|c2 [|c3 [|c4 ws]]]; try done.
  destruct (isdecimal c) eqn:E; [|done].
  apply decimal_not_space in E. congruence.
Qed.

Lemma first_marker_app_spaces_l (ws s : str) :
  Forall (λ c, isspace c = true) ws →
  first_marker (ws ++ s) = first_marker s.
Proof.
  induction 1 as [|c ws Hc _ IH]; [done|].
  cbn [app first_marker]. rewrite IH.
  destruct (isdecimal c) eqn:E.
  - apply decimal_not_space in E. congruence.
  - by repeat case_match.
Qed.

Lemma first_marker_app (s t : str) (m : char * char) :
  first_marker s = Some m → first_marker (s ++ t) = Some m.
Proof.
  induction s as [|c1 s IH]; [done|]. cbn [app first_marker].
  destruct s as [|c2 [|c3 [|c4 s]]]; try done.
  cbn [app]. destruct (_ && _); [done|]. apply IH.
Qed.

Lemma first_marker_app_spaces_r (s ws : str) :
  Forall (λ c, isspace c = true) ws →
  first_marker (s ++ ws) = first_marker s.
Proof.
  intros Hws. induction s as [|c1 s IH].
  - simpl. by rewrite first_marker_spaces.
  - cbn [app first_marker]. rewrite IH.
    assert (∀ c, c ∈ ws → isdecimal c = false ∧ chr_eqb c (ch "-") = false)
      as Hno.
    { intros c Hc. rewrite Forall_forall in Hws. apply Hws in Hc. split.
      - destruct (isdecimal c) eqn:E; [|done].
        apply decimal_not_space in E. congruence.
      - destruct (chr_eqb c (ch "-")) eqn:E; [|done].
        apply N.eqb_eq in E. subst c. by rewrite dash_not_space in Hc. }
    destruct s as [|c2 [|c3 [|c4 s]]]; cbn [app]; try done.
    + destruct ws as [|w2 [|w3 [|w4 ws]]]; try done.
      destruct (Hno w2) as [-> _]; [by left|].
      by rewrite andb_false_r.
    + destruct ws as [|w3 [|w4 ws]]; try done.
      destruct (Hno w3) as [_ ->]; [by left|].
      by rewrite andb_false_r.
    + destruct ws as [|w4 ws]; try done.
      destruct (Hno w4) as [-> _]; [by left|].
      by rewrite andb_false_r.
Qed.

Lemma first_marker_strip (s : str) : first_marker (strip s) = first_marker s.
Proof.
  unfold strip.
  destruct (lstrip_split s) as (ws1 & E1 & H1).
  destruct (rstrip_split (lstrip s)) as (ws2 & E2 & H2).
  rewrite E1 at 2. rewrite first_marker_app_spaces_l by done.
  rewrite E2 at 2. by rewrite first_marker_app_spaces_r.
Qed.

(** Trimming a page does not change the number detected in it, and text
    added after a page that has a marker does not either. *)
Lemma extract_strip (s : str) :
  extract_lesson_number (strip s) = extract_lesson_number s.
Proof. by rewrite !extract_first_marker, first_marker_strip. Qed.

Lemma extract_app (s t : str) (n : Z) :
  extract_lesson_number s = Some n → extract_lesson_number (s ++ t) = Some n.
Proof.
  rewrite !extract_first_marker.
  destruct (first_marker s) as [m|] eqn:E; [|discriminate].
  by rewrite (first_marker_app _ t _ E).
Qed.



(** X1. [extract_lesson_number] returns the value of the two digits at the
    leftmost place where two decimal digits are followed by a dash and a
    decimal digit, a number from 0 to 99, and [None] when the text has no
    such place; the conversion of the captured digits never fails. *)
Theorem extract_lesson_number_scans (text : str) :
  match first_marker text with
  | Some (c1, c2) =>
    ∃ d1 d2, decimal_value c1 = Some d1 ∧ decimal_value c2 = Some d2
             ∧ extract_lesson_number text = Some (10 * d1 + d2)
             ∧ 0 ≤ 10 * d1 + d2 ≤ 99
  | None => extract_lesson_number text = None
  end.
Proof.
  rewrite extract_first_marker.
  destruct (first_marker text) as [[c1 c2]|] eqn:E; [|done].
  assert (isdecimal c1 = true ∧ isdecimal c2 = true) as [H1 H2].
  { clear -E. induction text as [|c text IH]; [done|].
    cbn [first_marker] in E.
    destruct text as [|x2 [|x3 [|x4 text]]]; try by apply IH.
    destruct (isdecimal c) eqn:E1; [|by apply IH].
    destruct (isdecimal x2) eqn:E2; [|by apply IH].
    destruct (_ && _); [|by apply IH]. by injection E as <- <-. }
  unfold isdecimal in H1, H2. unfold int. simpl.
  destruct (decimal_value c1) as [d1|] eqn:D1; [|discriminate].
  destruct (decimal_value c2) as [d2|] eqn:D2; [|discriminate].
  exists d1, d2. apply decimal_value_range in D1, D2.
  repeat split; try done; lia.
Qed.

End Detector.

(** ** More on the segmenter *)

Section SegmenterMore.

#[local] Open Scope Z_scope.

Lemma join_units_head (p : str) (run : list str) :
  ∃ more, join sep2 (units p run) = strip p ++ more.
Proof. unfold units. rewrite join_cons. by eexists. Qed.

(** X2. Every lesson text of the map built by [structure_into_chapters]
    carries its own number: [extract_lesson_number] on the text of lesson
    [L] gives [L] again, and the text is not empty. *)
Theorem lesson_text_redetects (pages : list str) (L : Z) (text : str) :
  structure_into_chapters pages !! L = Some text →
  extract_lesson_number text = Some L ∧ text ≠ [].
Proof.
  intros H.
  assert (lesson_run pages L text) as (pre & p & run & post & _ & Hp & _ & _ & ->).
  { revert H. apply flush_final.
    apply (structure_fold_inv pages [] seg_init). split; simpl.
    - intros L' text'. by rewrite lookup_empty.
    - lia. }
  destruct (join_units_head p run) as [more ->].
  assert (extract_lesson_number (strip p ++ more) = Some L) as E
    by (apply extract_app; by rewrite extract_strip).
  split; [done|]. intros Hnil. rewrite Hnil in E. discriminate.
Qed.

Lemma lesson_text_redetects_witness :
  extract_lesson_number (u "03-1 three" ++ sep2 ++ u "more") = Some 3
  ∧ u "03-1 three" ++ sep2 ++ u "more" ≠ [].
Proof.
  apply (lesson_text_redetects [u "front"; u " 03-1 three "; u "more "] 3).
  vm_compute. reflexivity.
Defined.

Lemma seg_sim_step (st1 st2 : seg_state) (p : str) :
  seg_sim st1 st2 → seg_sim (structure_step st1 p) (structure_step st2 p).
Proof.
  intros (Hc & Hl & Hx). unfold structure_step, flush. rewrite <- Hl, <- Hc.
  destruct (extract_lesson_number p) as [n|];
    [destruct (_ && _)|]; unfold seg_sim; simpl.
  - split; [|by auto]. destruct Hx as [Hz| <-]; [|done].
    rewrite Hz. simpl. by destruct (current_content st1), (current_content st2).
  - split; [done|]. split; [done|]. destruct Hx as [?| <-]; by auto.
  - split; [done|]. split; [done|]. destruct Hx as [?| <-]; by auto.
Qed.

Lemma seg_sim_fold (pages : list str) (st1 st2 : seg_state) :
  seg_sim st1 st2 →
  seg_sim (fold_left structure_step pages st1)
          (fold_left structure_step pages st2).
Proof.
  revert st1 st2. induction pages as [|p pages IH]; intros st1 st2 H; [done|].
  simpl. by apply IH, seg_sim_step.
Qed.

Lemma seg_sim_flush (st1 st2 : seg_state) :
  seg_sim st1 st2 → flush st1 = flush st2.
Proof.
  intros (Hc & Hl & Hx). unfold flush. rewrite <- Hl, <- Hc.
  destruct Hx as [Hz| <-]; [|done].
  rewrite Hz. simpl. by destruct (current_content st1), (current_content st2).
Qed.

(** X3. Pages that come before the first page opening a lesson never reach
    the map: putting pages without a number in 1..15 in front of the input
    does not change the result of [structure_into_chapters]. *)
Theorem front_matter_is_dropped (front pages : list str) :
  Forall (λ p, ∀ n, extract_lesson_number p = Some n → ¬ (1 ≤ n ≤ 15)) front →
  structure_into_chapters (front ++ pages) = structure_into_chapters pages.
Proof.
  intros H. unfold structure_into_chapters. rewrite fold_left_app.
  apply seg_sim_flush, seg_sim_fold.
  destruct (noise_fold front seg_init H) as [Hc Hl].
  split; [done|]. split; [done|]. left. by rewrite Hl.
Qed.

Lemma front_matter_is_dropped_witness :
  structure_into_chapters ([u "cover"; u "99-1 noise"] ++ [u "01-1 one"])
  = structure_into_chapters [u "01-1 one"].
Proof.
  apply front_matter_is_dropped.
  repeat constructor; intros n E; vm_compute in E; inversion E; lia.
Defined.

End SegmenterMore.

(** ** More on the grouping loop of correct_chapters.py *)

Section OcrGrouping.

#[local] Open Scope Z_scope.

Lemma ocr_step_keys_in_range (st : seg_state) (p : str) :
  current_lesson st ≤ 15 → keys_in_range (chapters st) →
  current_lesson (ocr_step st p) ≤ 15
  ∧ keys_in_range (chapters (ocr_step st p)).
Proof.
  intros Hc Hk. unfold ocr_step.
  destruct (Re.search lesson_marker p) as [m|] eqn:E; [|done].
  destruct (marker_int _ _ E) as (n & -> & _).
  destruct (Z.leb_spec n 15); simpl; [|done].
  destruct (negb _); simpl; [|done].
  split; [lia|]. by apply flush_keys_in_range.
Qed.

Lemma ocr_fold_keys_in_range (pages : list str) (st : seg_state) :
  current_lesson st ≤ 15 → keys_in_range (chapters st) →
  current_lesson (fold_left ocr_step pages st) ≤ 15
  ∧ keys_in_range (chapters (fold_left ocr_step pages st)).
Proof.
  revert st. induction pages as [|p pages IH]; intros st Hc Hk; [done|].
  simpl. destruct (ocr_step_keys_in_range st p Hc Hk). by apply IH.
Qed.

Lemma ocr_keys_in_range (pages : list str) :
  keys_in_range (extract_chapters_from_ocr pages).
Proof.
  unfold extract_chapters_from_ocr.
  destruct (ocr_fold_keys_in_range pages seg_init) as [Hc Hk];
    [simpl; lia|intros k text; simpl; by rewrite lookup_empty|].
  by apply flush_keys_in_range.
Qed.

(** X4. The grouping loop of [extract_chapters_from_ocr] also keeps its
    keys in 1..15, and on every page sequence in which no page has 00 as
    its detected number it returns the same map as
    [structure_into_chapters]. *)
Theorem ocr_grouping_agrees (pages : list str) :
  (∀ k text, extract_chapters_from_ocr pages !! k = Some text → 1 ≤ k ≤ 15)
  ∧ (Forall (λ p, extract_lesson_number p ≠ Some 0) pages →
     extract_chapters_from_ocr pages = structure_into_chapters pages).
Proof.
  split; [apply ocr_keys_in_range|apply grouping_loops_agree_without_zero].
Qed.

Lemma ocr_grouping_agrees_witness :
  1 ≤ 2 ≤ 15
  ∧ extract_chapters_from_ocr [u "02-1 two"; u "15-3 last"; u "16-1 noise"]
    = structure_into_chapters [u "02-1 two"; u "15-3 last"; u "16-1 noise"].
Proof.
  destruct (ocr_grouping_agrees [u "02-1 two"; u "15-3 last"; u "16-1 noise"])
    as [Hk Ha].
  split.
  - apply (Hk 2 (u "02-1 two")). vm_compute. reflexivity.
  - apply Ha. repeat constructor; vm_compute; discriminate.
Defined.

End OcrGrouping.

(** ** More on the correction orchestrator *)

Section OrchestratorMore.

#[local] Open Scope Z_scope.

Variable Anthropic : option (prompt -> option str).



(** X6. What a batch leaves in the output directory: every text of the
    returned map that can be encoded as UTF-8 has been written to the file
    of its lesson; a text that cannot leaves that file empty; and a lesson
    without an entry in the map (failed, or not dispatched) keeps the file
    it had before the run, if any. *)
Theorem files_after_batch (chapters : gmap Z str) (ctx : str)
    (files0 : gmap Z str) (completion : list Z) :
  completion_order chapters completion →
  let b := process_all_chapters_parallel Anthropic chapters ctx files0
             completion in
  (∀ n text, results b !! n = Some text →
     files b !! n = Some (if utf8_encodable text then text else []))
  ∧ (∀ n, results b !! n = None → files b !! n = files0 !! n).
Proof.
  intros Hc b. unfold b. split.
  - intros n text. rewrite process_results, process_files by done.
    unfold saved. by intros ->.
  - intros n. rewrite process_results, process_files by done.
    unfold saved. by intros ->.
Qed.

(** X7. The numeral of the prompt is looked up by list index: a lesson
    number above 15 or below -16 makes the task fail before any request is
    sent. *)
Theorem numeral_lookup_out_of_range (n : Z) (content ctx : str) :
  n < -16 ∨ 15 < n →
  correct_chapter_with_claude Anthropic n content ctx = Future [] None.
Proof.
  intros Hn. unfold correct_chapter_with_claude.
  destruct Anthropic as [messages_create|]; [|done].
  assert (py_index chinese_nums n = None) as ->; [|done].
  unfold py_index. replace (length chinese_nums) with 16%nat by reflexivity.
  destruct (Z.leb_spec 0 n).
  - apply lookup_ge_None.
    replace (length chinese_nums) with 16%nat by reflexivity. lia.
  - destruct (Z.leb_spec 0 (Z.of_nat 16 + n)); [lia|done].
Qed.

End OrchestratorMore.


Lemma files_after_batch_witness :
  let b := process_all_chapters_parallel (Some (λ _, None))
             {[1%Z := u "one"]} (u "ctx") {[1%Z := u "old"]}
             (elements (dom ({[1%Z := u "one"]} : gmap Z str))) in
  files b !! 1%Z = ({[1%Z := u "old"]} : gmap Z str) !! 1%Z.
Proof.
  refine (proj2 (files_after_batch (Some (λ _, None))
                   {[1%Z := u "one"]} (u "ctx") {[1%Z := u "old"]}
                   (elements (dom ({[1%Z := u "one"]} : gmap Z str))) _)
                1%Z _).
  - unfold completion_order. reflexivity.
  - vm_compute. reflexivity.
Defined.

Lemma numeral_lookup_out_of_range_witness :
  correct_chapter_with_claude (Some (λ _, Some (u "ok"))) 16 (u "text")
    (u "ctx") = Future [] None.
Proof. apply numeral_lookup_out_of_range. right. lia. Defined.

(** ** More on the combined document *)

Section CombinedMore.

#[local] Open Scope Z_scope.

Lemma persisted_ext (files1 files2 : gmap Z str) :
  (∀ i, 1 ≤ i ≤ 15 → files1 !! i = files2 !! i) →
  persisted files1 = persisted files2.
Proof.
  intros H. unfold persisted.
  assert (Forall (λ i, files1 !! i = files2 !! i) (seqZ 1 15)) as Hall.
  { apply Forall_forall. intros i Hi%elem_of_seqZ. apply H. lia. }
  induction Hall as [|i l Hi _ IH]; [done|].
  cbn [omap list_omap]. rewrite Hi.
  destruct (files2 !! i); [f_equal|]; exact IH.
Qed.

(** X8. [combine_all_chapters] reads the fifteen files chapter_01.txt to
    chapter_15.txt and nothing else: two directories that agree on them
    give the same combined document, and a directory without any of them
    gives the header alone. *)
Theorem combined_document_reads_fifteen (files1 files2 : gmap Z str) :
  (∀ i, 1 ≤ i ≤ 15 → files1 !! i = files2 !! i) →
  combine_all_chapters files1 = combine_all_chapters files2
  ∧ ((∀ i, 1 ≤ i ≤ 15 → files1 !! i = None) →
     combine_all_chapters files1 = banner_text).
Proof.
  intros H. rewrite !combine_closed_form. split.
  - by rewrite (persisted_ext files1 files2).
  - intros Hnone. rewrite (persisted_ext files1 ∅).
    + replace (persisted ∅) with ([] : list (Z * str))
        by (vm_compute; reflexivity).
      apply app_nil_r.
    + intros i Hi. rewrite lookup_empty. by apply Hnone.
Qed.

Lemma combined_document_reads_fifteen_witness :
  combine_all_chapters {[16 := u "stray"]} = combine_all_chapters ∅.
Proof.
  refine (proj1 (combined_document_reads_fifteen {[16 := u "stray"]} ∅ _)).
  intros i Hi. rewrite lookup_empty. apply lookup_singleton_ne. lia.
Defined.

End CombinedMore.

(** ** More on the record parser *)

Section ParserMore.

Lemma lstrip_head (s : str) :
  match lstrip s with
  | c :: _ => isspace c = false
  | [] => True
  end.
Proof.
  induction s as [|c s IH]; simpl; [done|].
  destruct (isspace c) eqn:E; [done|done].
Qed.

Lemma lstrip_id (s : str) :
  match s with
  | c :: _ => isspace c = false
  | [] => True
  end → lstrip s = s.
Proof. destruct s as [|c s]; simpl; [done|]. by intros ->. Qed.

Lemma lstrip_idemp (s : str) : lstrip (lstrip s) = lstrip s.
Proof. apply lstrip_id, lstrip_head. Qed.

Lemma rstrip_idemp (s : str) : rstrip (rstrip s) = rstrip s.
Proof. unfold rstrip. by rewrite rev_involutive, lstrip_idemp. Qed.

Lemma rstrip_keeps_head (s : str) :
  match s with
  | c :: _ => isspace c = false
  | [] => True
  end →
  match rstrip s with
  | c :: _ => isspace c = false
  | [] => True
  end.
Proof.
  intros H. destruct (rstrip_split s) as (ws & E & _).
  destruct (rstrip s) as [|c t]; [done|].
  rewrite E in H. done.
Qed.

Lemma strip_idemp (s : str) : strip (strip s) = strip s.
Proof.
  unfold strip.
  rewrite (lstrip_id (rstrip (lstrip s)))
    by apply rstrip_keeps_head, lstrip_head.
  apply rstrip_idemp.
Qed.

Lemma normalize_pos_canonical (pos : str) : normalize_pos pos ∈ canonical_pos.
Proof.
  unfold normalize_pos, dict_get.
  match goal with
  | |- context [List.find ?f ?l] => destruct (List.find f l) as [kv|] eqn:E
  end.
  - apply List.find_some in E as [Hin _].
    assert (Forall (λ kv, snd kv ∈ canonical_pos) POS_MAPPING) as Hall
      by (apply (bool_decide_unpack _); vm_compute; reflexivity).
    rewrite Forall_forall in Hall. by apply Hall, list_elem_of_In.
  - apply (bool_decide_unpack _). vm_compute. reflexivity.
Qed.

(** X9. Whatever the line, a record returned by [parse_vocab_line] has one
    of the twelve categories as part of speech, and its word, pinyin and
    meaning carry no white space at either end. *)
Theorem parsed_record_is_normalized (line : str) (e : parsed) :
  parse_vocab_line line = Some e →
  part_of_speech e ∈ canonical_pos
  ∧ trimmed (word e) ∧ trimmed (pinyin e) ∧ trimmed (meaning e).
Proof.
  unfold parse_vocab_line, trimmed.
  destruct (parse_delimited line) as [e1|] eqn:E1.
  - intros [= <-]. unfold parse_delimited in E1.
    repeat case_match; try discriminate; injection E1 as <-; simpl;
      auto using normalize_pos_canonical, strip_idemp.
  - destruct (parse_tagged line) as [e2|] eqn:E2.
    + intros [= <-]. unfold parse_tagged in E2.
      repeat case_match; try discriminate; injection E2 as <-; simpl;
        auto using normalize_pos_canonical, strip_idemp.
    + intros E3. unfold parse_untagged in E3.
      repeat case_match; try discriminate; injection E3 as <-; simpl;
        auto using normalize_pos_canonical, strip_idemp.
Qed.

Lemma parsed_record_is_normalized_witness :
  part_of_speech (Parsed (u "谢谢") (u "xièxie") (u "verb") (u "to thank"))
    ∈ canonical_pos.
Proof.
  refine (proj1 (parsed_record_is_normalized
                   (u "3. 谢谢 | xièxie | v. | to thank") _ _)).
  vm_compute. reflexivity.
Defined.

End ParserMore.

(** ** More on the extractors *)

Section ExtractorsMore.

#[local] Open Scope Z_scope.





Section AtomsMore.

Variable ask_atoms : Z → str → gset str → option (list parsed).

(** X11. Atoms and vocabulary are mutually exclusive: no record of the atom
    artifact has a word of the vocabulary file the run was started with. *)
Theorem atoms_exclude_vocabulary (v : list entry) (files : gmap Z str)
    (completion : list Z) (e : entry) :
  completion_order (atom_chapters files) completion →
  e ∈ atoms_artifact ask_atoms (Some v) files completion →
  word (fields e) ∉ words v.
Proof.
  intros Hc He. unfold atoms_artifact in He.
  rewrite sort_by_key_perm in He. unfold process_all_chapters in He.
  rewrite process_all_chapters_stream in He by done.
  destruct (dedup_run_inv (load_existing_hsk_words (Some v))
              (atom_stream ask_atoms (Some v) files))
    as (_ & _ & _ & Hseed & _).
  apply Hseed in He. simpl in He. intros Hw. apply He.
  by apply elem_of_list_to_set.
Qed.

(** X12. The atoms are combined in chapter order after all futures are
    collected: the list returned by [process_all_chapters] is the same for
    every order in which the chapters complete. *)
Theorem atoms_do_not_depend_on_completion (vocab : option (list entry))
    (files : gmap Z str) (order1 order2 : list Z) :
  completion_order (atom_chapters files) order1 →
  completion_order (atom_chapters files) order2 →
  process_all_chapters ask_atoms vocab files order1
  = process_all_chapters ask_atoms vocab files order2.
Proof.
  intros H1 H2. unfold process_all_chapters.
  by rewrite !process_all_chapters_stream.
Qed.

End AtomsMore.

Lemma dedup_run_snoc (seed : gset str) (done : list entry) (e : entry) :
  dedup_run seed (done ++ [e])
  = dedup_step (chapter e) (dedup_run seed done) e.
Proof. unfold dedup_run. by rewrite fold_left_app. Qed.

Lemma dedup_no_skip (seed : gset str) (stream : list entry) :
  skipped (dedup_run seed stream) = []
  ↔ NoDup (words stream) ∧ ∀ e, e ∈ stream → word (fields e) ∉ seed.
Proof.
  induction stream as [|e done IH] using rev_ind.
  - split; [|done]. intros _. split; [constructor|].
    intros e. by rewrite elem_of_nil.
  - rewrite dedup_run_snoc. unfold dedup_step.
    destruct (dedup_run_inv seed done) as [Hseen _].
    rewrite words_app, NoDup_app. simpl.
    case_bool_decide as Hin; simpl; rewrite Hseen in Hin.
    + split; [intros [_ ?]%app_eq_nil; discriminate|].
      intros [(_ & Hfresh & _) Hseed]. exfalso.
      apply elem_of_union in Hin as [Hin|Hin].
      * apply (Hseed e); [|done]. apply elem_of_app. right. by left.
      * apply elem_of_list_to_set in Hin.
        apply (Hfresh _ Hin). by left.
    + rewrite IH. split.
      * intros [Hnd Hseed]. split.
        -- split; [done|]. split; [|apply NoDup_singleton].
           intros w Hw ->%list_elem_of_singleton. apply Hin.
           apply elem_of_union. right. by apply elem_of_list_to_set.
        -- intros x [Hx| ->%list_elem_of_singleton]%elem_of_app;
             [by apply Hseed|].
           intros Hs. apply Hin, elem_of_union. by left.
      * intros [(Hnd & _ & _) Hseed]. split; [done|].
        intros x Hx. apply Hseed, elem_of_app. by left.
Qed.

Lemma dedup_accepts_all (seed : gset str) (stream : list entry) :
  skipped (dedup_run seed stream) = [] →
  accepted (dedup_run seed stream) = stream.
Proof.
  induction stream as [|e pre IH] using rev_ind; [done|].
  rewrite dedup_run_snoc. unfold dedup_step.
  case_bool_decide; simpl.
  - intros [_ ?]%app_eq_nil. discriminate.
  - intros Hs. by rewrite IH.
Qed.

(** X13. [extract_all_chapters] reports no duplicate exactly when no word
    occurs twice in the chapter files, and it then returns every parsed
    record, in chapter-then-line order. *)
Theorem no_report_iff_no_repeated_word (files : gmap Z str) :
  (skipped (extract_all_chapters_run files) = []
   ↔ NoDup (words (vocab_stream files)))
  ∧ (NoDup (words (vocab_stream files)) →
     extract_all_chapters files = vocab_stream files).
Proof.
  unfold extract_all_chapters. rewrite extract_all_chapters_stream.
  assert (skipped (dedup_run ∅ (vocab_stream files)) = []
          ↔ NoDup (words (vocab_stream files))) as Hiff.
  { rewrite dedup_no_skip. split; [by intros [? _]|].
    intros H. split; [done|]. intros e _. apply not_elem_of_empty. }
  split; [done|].
  intros H. by apply dedup_accepts_all, Hiff.
Qed.

Lemma key_ordered_not_ltb (a b : entry) :
  key_ordered a b → key_ltb b a = false.
Proof.
  unfold key_ordered, key_ltb. intros [Hlt|[Heq Hw]].
  - destruct (Z.eqb_spec (chapter b) (chapter a)); [lia|].
    apply Z.ltb_ge. lia.
  - by rewrite Heq, Z.eqb_refl.
Qed.

Lemma sort_by_key_sorted_id (l : list entry) :
  Sorted key_ordered l → sort_by_key l = l.
Proof.
  induction 1 as [|x l Hs IH Hhd]; simpl; [done|].
  rewrite IH. destruct Hhd as [|y l Hxy]; simpl; [done|].
  by rewrite (key_ordered_not_ltb x y).
Qed.

(** X14. Sorting is idempotent: [sort_by_key] returns a list that is
    already in (chapter, word) order unchanged, so sorting the atom
    artifact again changes nothing. *)
Theorem sort_by_key_idempotent (l : list entry) :
  sort_by_key (sort_by_key l) = sort_by_key l
  ∧ (Sorted key_ordered l → sort_by_key l = l).
Proof.
  split; [|apply sort_by_key_sorted_id].
  apply sort_by_key_sorted_id, sort_by_key_sorted.
Qed.

End ExtractorsMore.

Lemma atoms_exclude_vocabulary_witness :
  u "六" ∉ words [Entry (Parsed (u "五") (u "wǔ") (u "numeral") (u "five"))
                        2 (u "hsk1") None].
Proof.
  refine (atoms_exclude_vocabulary
            (λ _ _ _, Some [Parsed (u "五") (u "wu") (u "noun") (u "5");
                            Parsed (u "六") (u "liù") (u "numeral") (u "six")])
            [Entry (Parsed (u "五") (u "wǔ") (u "numeral") (u "five"))
                   2 (u "hsk1") None]
            {[3%Z := u "lesson three"]}
            (elements (dom (atom_chapters {[3%Z := u "lesson three"]})))
            (Entry (Parsed (u "六") (u "liù") (u "numeral") (u "six"))
                   3 (u "hsk1") (Some (u "atom"))) _ _).
  - unfold completion_order. reflexivity.
  - vm_compute. by left.
Defined.

Lemma atoms_do_not_depend_on_completion_witness :
  process_all_chapters (λ _ _ _, None) None
    {[1%Z := u "one"; 2%Z := u "two"]}
    (elements (dom (atom_chapters {[1%Z := u "one"; 2%Z := u "two"]})))
  = process_all_chapters (λ _ _ _, None) None
      {[1%Z := u "one"; 2%Z := u "two"]}
      (reverse (elements (dom (atom_chapters
                                 {[1%Z := u "one"; 2%Z := u "two"]})))).
Proof.
  apply atoms_do_not_depend_on_completion.
  - unfold completion_order. reflexivity.
  - unfold completion_order. apply reverse_Permutation.
Defined.

Lemma no_report_iff_no_repeated_word_witness :
  extract_all_chapters {[1%Z := u "1. 你 | nǐ | pron. | you"]}
  = vocab_stream {[1%Z := u "1. 你 | nǐ | pron. | you"]}.
Proof.
  refine (proj2 (no_report_iff_no_repeated_word
                   {[1%Z := u "1. 你 | nǐ | pron. | you"]}) _).
  vm_compute. repeat constructor. by intros ?%elem_of_nil.
Defined.

Lemma sort_by_key_idempotent_witness :
  sort_by_key [Entry (Parsed (u "你") (u "nǐ") (u "pronoun") (u "you")) 1
                     (u "hsk1") (Some (u "atom"));
               Entry (Parsed (u "是") (u "shì") (u "verb") (u "to be")) 1
                     (u "hsk1") (Some (u "atom"))]
  = [Entry (Parsed (u "你") (u "nǐ") (u "pronoun") (u "you")) 1
           (u "hsk1") (Some (u "atom"));
     Entry (Parsed (u "是") (u "shì") (u "verb") (u "to be")) 1
           (u "hsk1") (Some (u "atom"))].
Proof.
  refine (proj2 (sort_by_key_idempotent _) _).
  apply Sorted_cons; [apply Sorted_cons; [apply Sorted_nil|apply HdRel_nil]|].
  apply HdRel_cons. right. split; [done|]. vm_compute. reflexivity.
Defined.

(** ** [format_output] *)

Section FormatOutput.

#[local] Open Scope Z_scope.

Lemma py_index_chinese_nums_None (k : Z) :
  py_index chinese_nums k = None ↔ k < -16 ∨ 15 < k.
Proof.
  unfold py_index. replace (length chinese_nums) with 16%nat by reflexivity.
  destruct (Z.leb_spec 0 k).
  - rewrite lookup_ge_None.
    replace (length chinese_nums) with 16%nat by reflexivity. lia.
  - destruct (Z.leb_spec 0 (Z.of_nat 16 + k)).
    + split; [|lia]. intros Hn. apply lookup_ge_None in Hn.
      replace (length chinese_nums) with 16%nat in Hn by reflexivity. lia.
    + split; [lia|done].
Qed.

Lemma format_fold_None (chapters : gmap Z str) (keys : list Z) :
  fold_left (λ output lesson_num,
               match output with
               | Some out => format_lesson chapters out lesson_num
               | None => None
               end) keys None = None.
Proof. by induction keys. Qed.

Lemma format_lesson_None (chapters : gmap Z str) (out : list str) (k : Z) :
  k ∈ dom chapters →
  format_lesson chapters out k = None ↔ k < -16 ∨ 15 < k.
Proof.
  intros Hk%elem_of_dom. unfold format_lesson.
  case_match; [|by destruct Hk].
  rewrite <- py_index_chinese_nums_None. by case_match.
Qed.

Lemma format_fold_spec (chapters : gmap Z str) (keys : list Z)
    (out : list str) :
  (∀ k, k ∈ keys → k ∈ dom chapters) →
  fold_left (λ output lesson_num,
               match output with
               | Some out => format_lesson chapters out lesson_num
               | None => None
               end) keys (Some out) = None
  ↔ ∃ k, k ∈ keys ∧ (k < -16 ∨ 15 < k).
Proof.
  revert out. induction keys as [|k keys IH]; intros out Hk; cbn [fold_left].
  - split; [done|]. by intros (k & ?%elem_of_nil & _).
  - assert (k ∈ dom chapters) as Hdom by (apply Hk; by left).
    destruct (format_lesson chapters out k) as [out'|] eqn:E.
    + rewrite IH by (intros k' Hk'; apply Hk; by right).
      split.
      * intros (k' & Hin & Hr). exists k'. split; [by right|done].
      * intros (k' & [->|Hin]%elem_of_cons & Hr); [|by exists k'].
        apply (format_lesson_None chapters out k Hdom) in Hr. congruence.
    + rewrite format_fold_None. split; [|done]. intros _.
      exists k. split; [by left|]. by eapply format_lesson_None.
Qed.

(** X15. [format_output] looks the numeral of each lesson up by list index:
    it raises exactly when the map has a key above 15 or below -16, so it
    never raises on a map built by [structure_into_chapters]. *)
Theorem format_output_raises_out_of_range (chapters : gmap Z str) :
  (format_output chapters = None
   ↔ ∃ k, k ∈ dom chapters ∧ (k < -16 ∨ 15 < k))
  ∧ ∀ pages, is_Some (structure_main pages).
Proof.
  assert (∀ m : gmap Z str,
            format_output m = None ↔ ∃ k, k ∈ dom m ∧ (k < -16 ∨ 15 < k))
    as Hspec.
  { intros m. unfold format_output.
    destruct (fold_left _ _ _) as [output|] eqn:E.
    - split; [done|]. intros (k & Hk & Hr). exfalso.
      assert (fold_left (λ output lesson_num,
                match output with
                | Some out => format_lesson m out lesson_num
                | None => None
                end) (merge_sort Z.le (elements (dom m)))
                (Some format_header) = None) as E'; [|congruence].
      apply format_fold_spec.
      + intros k'. rewrite merge_sort_Permutation. apply elem_of_elements.
      + exists k. split; [|done].
        rewrite merge_sort_Permutation. by apply elem_of_elements.
    - split; [|done]. intros _.
      apply format_fold_spec in E as (k & Hk & Hr).
      + exists k. split; [|done].
        rewrite merge_sort_Permutation in Hk. by apply elem_of_elements.
      + intros k'. rewrite merge_sort_Permutation. apply elem_of_elements. }
  split; [apply Hspec|].
  intros pages. unfold structure_main.
  destruct (format_output (structure_into_chapters pages)) eqn:E; [done|].
  apply Hspec in E as (k & [text Hk]%elem_of_dom & Hr). exfalso.
  destruct (structure_fold_keys_in_range pages seg_init) as [Hc Hkeys];
    [simpl; lia|intros k' text'; simpl; by rewrite lookup_empty|].
  pose proof (flush_keys_in_range _ Hc Hkeys k text Hk). lia.
Qed.

Example format_output_lesson_two :
  structure_main [u "02-1 two"]
  = Some (join [newline]
            (format_header
             ++ [[]; rule; u "## 第二课 - Lesson 2"; rule; []; u "02-1 two";
                 []])).
Proof. vm_compute. reflexivity. Qed.

End FormatOutput.

Example parse_ocr_file_example :
  parse_ocr_output (ocr_file [[u "01-1 a"; u " "]; []; [u "b"; u "c"]])
  = [[newline; newline] ++ u "01-1 a" ++ [newline; newline];
     [newline; newline] ++ u "b" ++ [newline] ++ u "c"].
Proof. vm_compute. reflexivity. Qed.

(** ** The OCR file and the page splitter *)

Section OcrFile.

#[local] Open Scope Z_scope.

(** The matcher on the pieces of the page pattern, in continuation
    form. *)
Lemma exec_rule60 {A : Type} (i : nat) (s : str) (g : list (nat * str))
    (k : Re.mstate → option A) :
  Re.exec (Re.Seqs (repeat (Re.Chr (ch "=")) 60))
          (Re.MState i (rule60 ++ s) g) k
  = k (Re.MState (60 + i) s g).
Proof. reflexivity. Qed.

Lemma exec_star_stop {A : Type} (p : char → bool) (i : nat) (s : str)
    (g : list (nat * str)) (k : Re.mstate → option A) :
  match s with
  | c :: _ => p c = false
  | [] => True
  end →
  Re.exec (Re.Star (Re.Cls p)) (Re.MState i s g) k = k (Re.MState i s g).
Proof.
  intros H. cbn [Re.exec Re.star_loop Re.rest].
  destruct s as [|c s]; [done|]. by rewrite H.
Qed.

Lemma exec_chr {A : Type} (c : char) (i : nat) (s : str)
    (g : list (nat * str)) (k : Re.mstate → option A) :
  Re.exec (Re.Chr c) (Re.MState i (c :: s) g) k = k (Re.MState (S i) s g).
Proof.
  unfold Re.Chr, chr_eqb. cbn [Re.exec Re.rest Re.pos Re.groups].
  by rewrite N.eqb_refl.
Qed.

Lemma exec_page_word {A : Type} (i : nat) (s : str) (g : list (nat * str))
    (k : Re.mstate → option A) :
  Re.exec (lit "## PAGE ") (Re.MState i (u "## PAGE " ++ s) g) k
  = k (Re.MState (8 + i) s g).
Proof. reflexivity. Qed.

Lemma star_digits {A : Type} (ds : str) (c : char) (s : str)
    (g : list (nat * str)) (k : Re.mstate → option A) (a : A) :
  Forall (λ d, isdecimal d = true) ds → isdecimal c = false →
  ∀ (i fuel : nat), (length ds < fuel)%nat →
    k (Re.MState (length ds + i) (c :: s) g) = Some a →
    Re.star_loop (Re.exec Re.digit) k fuel (Re.MState i (ds ++ c :: s) g)
    = Some a.
Proof.
  intros Hds Hc. induction Hds as [|d ds Hd _ IH]; intros i fuel Hf Hk.
  - destruct fuel as [|fuel]; [done|].
    cbn [Re.star_loop Re.exec Re.digit Re.rest app]. by rewrite Hc.
  - destruct fuel as [|fuel]; [simpl in Hf; lia|].
    cbn [Re.star_loop Re.exec Re.digit Re.rest Re.pos Re.groups app].
    rewrite Hd. rewrite (proj2 (Nat.ltb_lt i (S i))) by lia.
    rewrite IH; [done|simpl in Hf; lia|].
    by rewrite <- Hk, Nat.add_succ_r.
Qed.

Lemma exec_plus_digits {A : Type} (d : char) (ds : str) (c : char) (s : str)
    (g : list (nat * str)) (k : Re.mstate → option A) (a : A) (i : nat) :
  Forall (λ d, isdecimal d = true) (d :: ds) → isdecimal c = false →
  k (Re.MState (length (d :: ds) + i) (c :: s) g) = Some a →
  Re.exec (Re.Plus Re.digit) (Re.MState i ((d :: ds) ++ c :: s) g) k = Some a.
Proof.
  intros [Hd Hds]%Forall_cons Hc Hk. unfold Re.Plus.
  cbn [Re.exec Re.digit Re.rest Re.pos Re.groups app]. rewrite Hd.
  apply star_digits; try done.
  - rewrite length_app. apply Nat.lt_succ_r, Nat.le_add_r.
  - by rewrite <- Hk, Nat.add_succ_r.
Qed.

Lemma exec_seq {A : Type} (r1 r2 : Re.regex) (st : Re.mstate)
    (k : Re.mstate → option A) :
  Re.exec (Re.Seq r1 r2) st k = Re.exec r1 st (λ st1, Re.exec r2 st1 k).
Proof. reflexivity. Qed.

Lemma exec_rule_pattern {A : Type} (i : nat) (c : char) (s : str)
    (g : list (nat * str)) (k : Re.mstate → option A) :
  c ≠ ch "=" →
  Re.exec rule_pattern (Re.MState i (rule60 ++ c :: s) g) k
  = k (Re.MState (60 + i) (c :: s) g).
Proof.
  intros Hc. unfold rule_pattern. rewrite exec_seq, exec_rule60.
  apply exec_star_stop. unfold chr_eqb. apply N.eqb_neq. congruence.
Qed.

Lemma exec_chr_fail {A : Type} (c : char) (i : nat) (s : str)
    (g : list (nat * str)) (k : Re.mstate → option A) :
  match s with
  | x :: _ => x ≠ c
  | [] => True
  end →
  Re.exec (Re.Chr c) (Re.MState i s g) k = None.
Proof.
  intros Hs. unfold Re.Chr. cbn [Re.exec Re.rest].
  destruct s as [|x s]; [done|].
  unfold chr_eqb. by rewrite (proj2 (N.eqb_neq c x)) by congruence.
Qed.

Lemma exec_chrs_fail {A : Type} (c : char) (n : nat) (i : nat) (s : str)
    (g : list (nat * str)) (k : Re.mstate → option A) :
  match s with
  | x :: _ => x ≠ c
  | [] => True
  end →
  Re.exec (Re.Seqs (repeat (Re.Chr c) (S n))) (Re.MState i s g) k = None.
Proof.
  intros Hs. destruct n as [|n]; cbn [repeat Re.Seqs].
  - by apply exec_chr_fail.
  - rewrite exec_seq. by apply exec_chr_fail.
Qed.

Lemma exec_page_marker_fail {A : Type} (i : nat) (s : str)
    (g : list (nat * str)) (k : Re.mstate → option A) :
  match s with
  | c :: _ => c ≠ ch "="
  | [] => True
  end →
  Re.exec page_marker (Re.MState i s g) k = None.
Proof.
  intros Hs. unfold page_marker, rule_pattern. cbn [Re.Seqs].
  rewrite !exec_seq. by apply (exec_chrs_fail (ch "=") 59).
Qed.

(** The digits of [str(n)] for a natural number. *)
Lemma nilempty_ascii (d : Decimal.uint) :
  Forall (λ c, (48 ≤ c ≤ 57)%N)
         (map N_of_ascii (list_ascii_of_string (NilEmpty.string_of_uint d))).
Proof. induction d; simpl; constructor; done || lia. Qed.

Lemma str_of_int_ascii (n : Z) :
  0 ≤ n →
  ∃ d ds, str_of_int n = d :: ds ∧ Forall (λ c, (48 ≤ c ≤ 57)%N) (d :: ds).
Proof.
  intros Hn. unfold str_of_int.
  destruct n as [|p|p];
    [by exists (ch "0"), []; repeat constructor; simpl; lia| |lia].
  cbn [Z.to_int NilZero.string_of_int].
  pose proof (nilempty_ascii (Pos.to_uint p)) as H.
  destruct (Pos.to_uint p) as [|d|d|d|d|d|d|d|d|d|d];
    [by exists (ch "0"), []; repeat constructor; simpl; lia|..];
    cbn [NilZero.string_of_uint]; simpl in H |- *; eauto.
Qed.

Lemma ascii_digit_decimal (c : char) : (48 ≤ c ≤ 57)%N → isdecimal c = true.
Proof.
  intros H.
  assert (c ∈ [48; 49; 50; 51; 52; 53; 54; 55; 56; 57]%N) as Hc.
  { rewrite !elem_of_cons. lia. }
  rewrite !elem_of_cons in Hc.
  repeat (destruct Hc as [->|Hc]; [reflexivity|]). by apply elem_of_nil in Hc.
Qed.

Lemma str_of_int_digits (n : Z) :
  0 ≤ n →
  ∃ d ds, str_of_int n = d :: ds ∧ Forall (λ c, isdecimal c = true) (d :: ds).
Proof.
  intros Hn. destruct (str_of_int_ascii n Hn) as (d & ds & E & H).
  exists d, ds. split; [done|].
  eapply Forall_impl; [exact H|]. apply ascii_digit_decimal.
Qed.

Lemma exec_page_rule (k : nat) (s : str) (i : nat) :
  ∃ j, Re.exec page_marker (Re.MState i (page_rule k ++ newline :: s) []) Some
       = Some (Re.MState j (newline :: s) []).
Proof.
  unfold page_rule.
  destruct (str_of_int_digits (Z.of_nat k + 1)) as (d & ds & -> & Hd); [lia|].
  eexists. unfold page_marker. cbn [Re.Seqs].
  rewrite <- !app_assoc. cbn [app].
  rewrite exec_seq, exec_rule_pattern by done. cbv beta.
  rewrite exec_seq, exec_chr. cbv beta.
  rewrite exec_seq, exec_page_word. cbv beta.
  rewrite exec_seq. apply exec_plus_digits; [done|done|].
  rewrite exec_seq, exec_chr. cbv beta.
  by rewrite exec_rule_pattern.
Qed.

Lemma search_span_eq (r : Re.regex) (i : nat) (passed s : str) :
  search_span r i passed s
  = match Re.exec r (Re.MState i s []) Some with
    | Some st => Some (rev passed, st)
    | None =>
      match s with
      | [] => None
      | c :: s' => search_span r (S i) (c :: passed) s'
      end
    end.
Proof. by destruct s. Qed.

Lemma search_span_skip (pre s : str) (st : nat → Re.mstate) :
  Forall (λ c, c ≠ ch "=") pre →
  (∀ i, ∃ j, Re.exec page_marker (Re.MState i s []) Some = Some (st j)) →
  ∀ i passed, ∃ j,
    search_span page_marker i passed (pre ++ s) = Some (rev passed ++ pre, st j).
Proof.
  intros Hpre Hs.
  induction Hpre as [|c pre Hc _ IH]; intros i passed.
  - destruct (Hs i) as [j Hj]. exists j.
    rewrite search_span_eq. cbn [app]. by rewrite Hj, app_nil_r.
  - destruct (IH (S i) (c :: passed)) as [j Hj]. exists j.
    rewrite search_span_eq. cbn [app].
    rewrite exec_page_marker_fail by done. cbv beta iota.
    etrans; [exact Hj|].
    apply (f_equal (λ x, Some (x, st j))).
    exact (eq_sym (app_assoc (rev passed) [c] pre)).
Qed.

Lemma search_span_none (s : str) :
  Forall (λ c, c ≠ ch "=") s →
  ∀ i passed, search_span page_marker i passed s = None.
Proof.
  intros Hs. induction Hs as [|c s Hc _ IH]; intros i passed.
  - rewrite search_span_eq. by rewrite exec_page_marker_fail.
  - rewrite search_span_eq. rewrite exec_page_marker_fail by done.
    cbv beta iota. apply IH.
Qed.

Lemma page_rule_length (k : nat) : (0 < length (page_rule k))%nat.
Proof.
  unfold page_rule.
  change rule60 with (ch "=" :: repeat_chr (ch "=") 59) at 1.
  cbn [app length]. apply Nat.lt_0_succ.
Qed.

Lemma ocr_body_cons (k : nat) (text : str) (l : list (nat * str)) :
  ocr_body ((k, text) :: l)
  = page_rule k ++ newline :: newline :: text
    ++ match l with
       | [] => []
       | _ => [newline; newline] ++ ocr_body l
       end.
Proof. reflexivity. Qed.

(** The pieces the page pattern leaves of a text made of page rules and
    texts without rule characters. *)
Lemma re_split_body (l : list (nat * str)) :
  Forall (λ kt, Forall (λ c, c ≠ ch "=") kt.2) l →
  ∀ (pre : str) (fuel i : nat),
    Forall (λ c, c ≠ ch "=") pre →
    (length (pre ++ ocr_body l) < fuel)%nat →
    re_split_from page_marker fuel i (pre ++ ocr_body l) = pre :: frames l.
Proof.
  intros Hl. induction Hl as [|[k text] l Ht _ IH]; intros pre fuel i Hpre Hf.
  - cbn [ocr_body frames]. rewrite app_nil_r.
    destruct fuel as [|fuel]; [done|]. cbn [re_split_from].
    by rewrite search_span_none.
  - destruct fuel as [|fuel]; [by apply Nat.nlt_0_r in Hf|].
    cbn [re_split_from]. rewrite ocr_body_cons in Hf |- *.
    set (tail := match l with
                 | [] => []
                 | _ => [newline; newline] ++ ocr_body l
                 end) in *.
    destruct (search_span_skip pre
                (page_rule k ++ newline :: newline :: text ++ tail)
                (λ j, Re.MState j (newline :: newline :: text ++ tail) [])
                Hpre (exec_page_rule k _) i []) as [j Hj].
    cbn [rev app] in Hj.
    etrans; [exact (f_equal (λ o, match o with
                                  | Some (before, st) =>
                                    before :: re_split_from page_marker fuel
                                                (Re.pos st) (Re.rest st)
                                  | None => _
                                  end) Hj)|].
    cbn [Re.pos Re.rest]. f_equal.
    assert (length (newline :: newline :: text ++ tail) < fuel)%nat as Hf'.
    { pose proof (page_rule_length k) as Hk.
      rewrite !length_app in Hf.
      assert (∀ a b c f : nat, 0 < b → a + (b + c) < S f → c < f)%nat
        as Harith by lia.
      eapply Harith; [exact Hk|exact Hf]. }
    simpl in Ht. subst tail. destruct l as [|p l].
    + rewrite app_nil_r in Hf' |- *.
      specialize (IH (newline :: newline :: text) fuel j).
      cbn [ocr_body frames] in IH |- *. rewrite app_nil_r in IH.
      apply IH; [by repeat constructor|done].
    + specialize (IH (newline :: newline :: text ++ [newline; newline]) fuel j).
      cbn [frames app].
      replace (newline :: newline :: text ++ newline :: newline :: ocr_body (p :: l))
        with ((newline :: newline :: text ++ [newline; newline])
              ++ ocr_body (p :: l))
        by (cbn [app]; by rewrite <- (app_assoc text)).
      apply IH.
      * repeat constructor; try done. apply Forall_app. by repeat constructor.
      * cbn [app]. rewrite <- (app_assoc text). exact Hf'.
Qed.

(** The written file, as page rules and texts. *)
Lemma page_banner_rule (k : nat) :
  page_banner k = newline :: page_rule k ++ [newline].
Proof.
  unfold page_banner, page_rule. cbn [app]. f_equal.
  by repeat (rewrite <- app_assoc; cbn [app]).
Qed.

Lemma ocr_pages_numbered (doc : list (list str)) (n : nat)
    (all_text : list str) :
  ocr_pages n doc all_text
  = all_text ++ flat_map (λ kt, [page_banner kt.1; kt.2]) (numbered n doc).
Proof.
  revert n all_text. induction doc as [|images doc IH]; intros n all_text.
  - cbn [ocr_pages numbered flat_map]. by rewrite app_nil_r.
  - cbn [ocr_pages numbered]. rewrite IH. unfold ocr_page.
    destruct images as [|text images]; [by cbn [List.filter]|].
    destruct (List.filter _ (text :: images)) as [|t ts]; [done|].
    cbn [flat_map fst snd]. by rewrite <- app_assoc.
Qed.

Lemma join_more (sep y : str) (R : list str) :
  R ≠ [] → join sep (y :: R) = y ++ sep ++ join sep R.
Proof. by destruct R. Qed.

Lemma join_banners (l : list (nat * str)) :
  join [newline] (flat_map (λ kt, [page_banner kt.1; kt.2]) l)
  = match l with
    | [] => []
    | _ => newline :: ocr_body l
    end.
Proof.
  induction l as [|[k text] l IH]; [done|].
  cbn [flat_map fst snd app].
  rewrite join_more, ocr_body_cons, page_banner_rule by done.
  destruct l as [|p l].
  - cbn [flat_map join app]. f_equal.
    rewrite app_nil_r, <- app_assoc. done.
  - rewrite join_more, IH by (by destruct p).
    cbn [app]. f_equal. rewrite <- app_assoc. done.
Qed.

Lemma page_texts_numbered (doc : list (list str)) (n : nat) :
  map snd (numbered n doc) = page_texts doc.
Proof.
  revert n. induction doc as [|images doc IH]; intros n; [done|].
  unfold page_texts. cbn [numbered flat_map].
  destruct (List.filter _ images) as [|t ts]; [apply IH|].
  cbn [map snd app]. f_equal. apply IH.
Qed.

(** Reading back a text without carriage return. *)
Lemma read_text_id (s : str) : Forall (λ c, c ≠ 13%N) s → read_text s = s.
Proof.
  intros Hs. induction Hs as [|c s Hc _ IH]; [done|].
  cbn [read_text]. unfold chr_eqb.
  rewrite (proj2 (N.eqb_neq c 13)) by done. by rewrite IH.
Qed.

(** Code points that are written and read back as they are. *)
Lemma plain_check (s : str) :
  forallb (λ c, negb (N.eqb c (ch "=")) && negb (N.eqb c 13)
                && negb (in_range 55296%N 57343%N c)) s = true →
  plain s.
Proof.
  intros H. apply Forall_forall. intros c Hc%list_elem_of_In.
  rewrite forallb_forall in H. specialize (H c Hc).
  apply andb_true_iff in H as [H H3%negb_true_iff].
  apply andb_true_iff in H as [H1%negb_true_iff%N.eqb_neq
                                 H2%negb_true_iff%N.eqb_neq].
  done.
Qed.

Lemma sound_check (s : str) :
  forallb (λ c, negb (N.eqb c 13) && negb (in_range 55296%N 57343%N c)) s = true →
  Forall (λ c, c ≠ 13%N ∧ in_range 55296%N 57343%N c = false) s.
Proof.
  intros H. apply Forall_forall. intros c Hc%list_elem_of_In.
  rewrite forallb_forall in H. specialize (H c Hc).
  by apply andb_true_iff in H as [H1%negb_true_iff%N.eqb_neq
                                    H2%negb_true_iff].
Qed.

Lemma plain_no_rule (s : str) : plain s → Forall (λ c, c ≠ ch "=") s.
Proof. intros H. eapply Forall_impl; [exact H|]. by intros c (? & ? & ?). Qed.

Lemma plain_sound (s : str) :
  plain s → Forall (λ c, c ≠ 13%N ∧ in_range 55296%N 57343%N c = false) s.
Proof. intros H. eapply Forall_impl; [exact H|]. by intros c (? & ? & ?). Qed.

Lemma sound_nocr (s : str) :
  Forall (λ c, c ≠ 13%N ∧ in_range 55296%N 57343%N c = false) s →
  Forall (λ c, c ≠ 13%N) s.
Proof. intros H. eapply Forall_impl; [exact H|]. by intros c [? ?]. Qed.

Lemma sound_encodable (s : str) :
  Forall (λ c, c ≠ 13%N ∧ in_range 55296%N 57343%N c = false) s →
  utf8_encodable s = true.
Proof.
  intros H. unfold utf8_encodable. apply forallb_forall.
  intros c Hc%list_elem_of_In. rewrite Forall_forall in H.
  destruct (H c Hc) as [_ ->]. done.
Qed.

Lemma plain_join (ps : list str) : Forall plain ps → plain (join [newline] ps).
Proof.
  intros Hps. destruct Hps as [|p ps Hp Hps]; [by constructor|].
  rewrite join_cons. apply Forall_app. split; [done|].
  induction Hps as [|q ps Hq _ IH]; [by constructor|].
  cbn [flat_map]. apply Forall_app. split; [|done].
  apply Forall_cons. split; [by repeat split|done].
Qed.

Lemma plain_numbered (doc : list (list str)) (n : nat) :
  Forall (Forall plain) doc → Forall (λ kt, plain kt.2) (numbered n doc).
Proof.
  intros Hdoc. revert n.
  induction Hdoc as [|images doc Hi _ IH]; intros n; [by constructor|].
  cbn [numbered].
  destruct (List.filter _ images) as [|t ts] eqn:E; [apply IH|].
  constructor; [|apply IH]. cbn [snd]. apply plain_join.
  rewrite <- E. rewrite !Forall_forall in Hi |- *.
  intros x Hx%list_elem_of_In%filter_In. apply Hi, list_elem_of_In, Hx.
Qed.

Lemma page_rule_sound (k : nat) :
  Forall (λ c, c ≠ 13%N ∧ in_range 55296%N 57343%N c = false) (page_rule k).
Proof.
  unfold page_rule.
  destruct (str_of_int_ascii (Z.of_nat k + 1)) as (d & ds & -> & Hd); [lia|].
  assert (Forall (λ c, c ≠ 13%N ∧ in_range 55296%N 57343%N c = false) rule60)
    by (by apply sound_check).
  repeat (apply Forall_app; split); try done.
  - by repeat constructor.
  - by apply sound_check.
  - eapply Forall_impl; [exact Hd|]. intros c Hc. simpl in Hc.
    split; [lia|].
    unfold in_range. apply andb_false_iff. left. apply N.leb_gt. lia.
  - by repeat constructor.
Qed.

Lemma ocr_body_sound (l : list (nat * str)) :
  Forall (λ kt, plain kt.2) l →
  Forall (λ c, c ≠ 13%N ∧ in_range 55296%N 57343%N c = false) (ocr_body l).
Proof.
  intros Hl. induction Hl as [|[k text] l Ht _ IH]; [by constructor|].
  rewrite ocr_body_cons. apply Forall_app. split; [apply page_rule_sound|].
  do 2 (constructor; [done|]). apply Forall_app. split; [by apply plain_sound|].
  destruct l; [by constructor|]. by do 2 (constructor; [done|]).
Qed.

(** The written file: the header lines, then page rules and texts. *)
Lemma ocr_file_shape (doc : list (list str)) :
  ∃ pre : str,
    plain pre ∧ startswith (ch "#") pre = true
    ∧ ocr_file doc = pre ++ ocr_body (numbered 0 doc).
Proof.
  unfold ocr_file.
  rewrite ocr_pages_numbered, app_nil_l, join_banners.
  rewrite (app_assoc (u "# HSK 1 - Chapters 1-15 (OCR Extracted)" ++ [newline])).
  generalize (plain_check _ (eq_refl :
    forallb (λ c, negb (N.eqb c (ch "=")) && negb (N.eqb c 13)
                  && negb (in_range 55296%N 57343%N c))
      ((u "# HSK 1 - Chapters 1-15 (OCR Extracted)" ++ [newline])
       ++ u "# Note: Review for OCR errors, especially in pinyin tones"
       ++ [newline; newline]) = true)).
  generalize (eq_refl : startswith (ch "#")
      ((u "# HSK 1 - Chapters 1-15 (OCR Extracted)" ++ [newline])
       ++ u "# Note: Review for OCR errors, especially in pinyin tones"
       ++ [newline; newline]) = true).
  generalize ((u "# HSK 1 - Chapters 1-15 (OCR Extracted)" ++ [newline])
       ++ u "# Note: Review for OCR errors, especially in pinyin tones"
       ++ [newline; newline]).
  intros header Hs Hh.
  destruct (numbered 0 doc) as [|p l].
  - by exists header.
  - exists (header ++ [newline]). split_and!.
    + apply Forall_app. split; [done|]. by repeat constructor.
    + by destruct header.
    + by rewrite <- (app_assoc header [newline]).
Qed.

(** The text of the pages can be written. *)
Lemma ocr_text_encodable (doc : list (list str)) :
  Forall (Forall plain) doc →
  extract_pdf_with_ocr doc = Some (ocr_file doc).
Proof.
  intros Hdoc. unfold extract_pdf_with_ocr.
  rewrite ocr_pages_numbered, app_nil_l, join_banners.
  rewrite sound_encodable; [done|].
  pose proof (ocr_body_sound _ (plain_numbered doc 0 Hdoc)) as H.
  destruct (numbered 0 doc); [by constructor|]. by constructor.
Qed.

(** The pages read from the written file. *)
Lemma parse_ocr_frames (doc : list (list str)) :
  Forall (Forall plain) doc →
  parse_ocr_output (ocr_file doc) = frames (numbered 0 doc).
Proof.
  intros Hdoc. pose proof (plain_numbered doc 0 Hdoc) as Hl.
  destruct (ocr_file_shape doc) as (pre & Hp & Hps & ->).
  unfold parse_ocr_output.
  rewrite read_text_id
    by (apply sound_nocr, Forall_app; split;
        [by apply plain_sound|by apply ocr_body_sound]).
  unfold re_split. rewrite re_split_body.
  - by rewrite Hps.
  - eapply Forall_impl; [exact Hl|]. intros kt. apply plain_no_rule.
  - by apply plain_no_rule.
  - apply Nat.lt_succ_diag_r.
Qed.

(** White space around a text. *)
Lemma lstrip_spaces (ws s : str) :
  Forall (λ c, isspace c = true) ws → lstrip (ws ++ s) = lstrip s.
Proof.
  intros Hws. induction Hws as [|c ws Hc _ IH]; [done|].
  cbn [app lstrip]. by rewrite Hc.
Qed.

Lemma rstrip_spaces (s ws : str) :
  Forall (λ c, isspace c = true) ws → rstrip (s ++ ws) = rstrip s.
Proof.
  intros Hws. unfold rstrip. rewrite rev_app_distr.
  by rewrite lstrip_spaces by (by apply Forall_rev).
Qed.

Lemma strip_pad (ws1 s ws2 : str) :
  Forall (λ c, isspace c = true) ws1 → Forall (λ c, isspace c = true) ws2 →
  strip (ws1 ++ s ++ ws2) = strip s.
Proof.
  intros H1 H2. unfold strip. rewrite lstrip_spaces by done.
  destruct (lstrip_split s) as (ws & E & Hws).
  pose proof (lstrip_head s) as Hh.
  destruct (lstrip s) as [|c r] eqn:El.
  - rewrite app_nil_r in E. subst s.
    rewrite <- (app_nil_r (ws ++ ws2)).
    rewrite lstrip_spaces by (apply Forall_app; by split). done.
  - rewrite E at 1. rewrite <- app_assoc, lstrip_spaces by done.
    rewrite lstrip_id by done. by apply rstrip_spaces.
Qed.

Lemma strip_frames (l : list (nat * str)) :
  map strip (frames l) = map strip (map snd l).
Proof.
  induction l as [|[k text] l IH]; [done|].
  cbn [frames]. destruct l as [|p l].
  - cbn [map snd]. apply (f_equal2 cons); [|done].
    rewrite <- (app_nil_r text) at 1.
    by apply (strip_pad [newline; newline] text []); repeat constructor.
  - cbn [map snd]. rewrite IH. apply (f_equal2 cons); [|done].
    by apply (strip_pad [newline; newline] text [newline; newline]);
      repeat constructor.
Qed.

(** The segmenter reads a page only through its trimmed text. *)
Lemma structure_step_strip (st : seg_state) (p : str) :
  structure_step st (strip p) = structure_step st p.
Proof.
  unfold structure_step, append_page. by rewrite extract_strip, strip_idemp.
Qed.

Lemma structure_fold_strip (pages : list str) (st : seg_state) :
  fold_left structure_step (map strip pages) st
  = fold_left structure_step pages st.
Proof.
  revert st. induction pages as [|p pages IH]; intros st; [done|].
  cbn [map fold_left]. by rewrite structure_step_strip, IH.
Qed.

(** X16.  When no image text contains the character '=', a carriage
    return or a surrogate code point, [extract_pdf_with_ocr] writes its
    file, and what [parse_ocr_output] reads from it is, up to white space
    around every page, the list of the page texts: one page for every page
    of the document that has a non-blank image text, in order, the texts of
    its images joined by newlines; the two header lines are dropped. *)
Theorem ocr_file_round_trip (doc : list (list str)) :
  Forall (Forall plain) doc →
  ∃ stored, extract_pdf_with_ocr doc = Some stored
            ∧ map strip (parse_ocr_output stored)
              = map strip (page_texts doc).
Proof.
  intros Hdoc. exists (ocr_file doc). split; [by apply ocr_text_encodable|].
  by rewrite parse_ocr_frames, strip_frames, page_texts_numbered.
Qed.

(** X17.  [structure_into_chapters] reads every page only through its
    trimmed text: white space around the pages does not change the
    lessons. *)
Theorem segmenter_reads_trimmed_pages (pages : list str) :
  structure_into_chapters (map strip pages) = structure_into_chapters pages.
Proof. unfold structure_into_chapters. by rewrite structure_fold_strip. Qed.

(** X18.  The two scripts composed: segmenting the pages read from the
    written OCR file gives the lessons of the page texts themselves, when no
    image text contains '=', a carriage return or a surrogate code point. *)
Theorem segmenting_the_ocr_file (doc : list (list str)) :
  Forall (Forall plain) doc →
  ∃ stored, extract_pdf_with_ocr doc = Some stored
            ∧ structure_into_chapters (parse_ocr_output stored)
              = structure_into_chapters (page_texts doc).
Proof.
  intros Hdoc. exists (ocr_file doc). split; [by apply ocr_text_encodable|].
  unfold structure_into_chapters.
  rewrite <- (structure_fold_strip (parse_ocr_output _)).
  rewrite parse_ocr_frames, strip_frames, page_texts_numbered by done.
  by rewrite structure_fold_strip.
Qed.

End OcrFile.

Lemma ocr_file_round_trip_witness :
  ∃ stored,
    extract_pdf_with_ocr
      [[u "01-1 ni hao"]; []; [u "  "; u "02-1 xie"; u "xie "]] = Some stored
    ∧ map strip (parse_ocr_output stored)
      = [u "01-1 ni hao"; u "02-1 xie" ++ [newline] ++ u "xie"].
Proof.
  apply (ocr_file_round_trip
           [[u "01-1 ni hao"]; []; [u "  "; u "02-1 xie"; u "xie "]]).
  repeat (constructor; [repeat (constructor; [by apply plain_check|])|]);
    constructor.
Defined.

Lemma segmenting_the_ocr_file_witness :
  ∃ stored,
    extract_pdf_with_ocr
      [[u "cover"]; [u "01-1 ni hao"]; []; [u "  "; u "01-2 xie xie"]]
    = Some stored
    ∧ structure_into_chapters (parse_ocr_output stored)
      = structure_into_chapters [u "cover"; u "01-1 ni hao"; u "01-2 xie xie"].
Proof.
  apply (segmenting_the_ocr_file
           [[u "cover"]; [u "01-1 ni hao"]; []; [u "  "; u "01-2 xie xie"]]).
  repeat (constructor; [repeat (constructor; [by apply plain_check|])|]);
    constructor.
Defined.

(** ** The JSON text of an answer *)

Section JsonText.

#[local] Open Scope Z_scope.

Lemma strip_prefix_spec (p s r : str) :
  strip_prefix p s = Some r ↔ s = p ++ r.
Proof.
  revert s. induction p as [|c p IH]; intros s; cbn [strip_prefix app].
  - split; congruence.
  - destruct s as [|x s]; [split; discriminate|]. unfold chr_eqb.
    destruct (N.eqb_spec x c) as [->|Hne].
    + rewrite IH. split; congruence.
    + split; [discriminate|]. intros [= ? ?]. congruence.
Qed.

Lemma strip_prefix_app (p s r t : str) :
  strip_prefix p s = Some r → strip_prefix p (s ++ t) = Some (r ++ t).
Proof.
  rewrite !strip_prefix_spec. intros ->. by rewrite <- app_assoc.
Qed.

Lemma strip_prefix_head (c x : char) (p s : str) :
  x ≠ c → strip_prefix (c :: p) (x :: s) = None.
Proof.
  intros H. cbn [strip_prefix]. unfold chr_eqb.
  by rewrite (proj2 (N.eqb_neq x c)).
Qed.

Lemma find_sub_eq (sep s : str) :
  find_sub sep s
  = match strip_prefix sep s with
    | Some after => Some ([], after)
    | None =>
      match s with
      | [] => None
      | c :: s' =>
        match find_sub sep s' with
        | Some (before, after) => Some (c :: before, after)
        | None => None
        end
      end
    end.
Proof. by destruct s. Qed.

Lemma find_sub_spec (sep s b a : str) :
  find_sub sep s = Some (b, a) → s = b ++ sep ++ a.
Proof.
  revert b. induction s as [|c s IH]; intros b; rewrite find_sub_eq.
  - destruct (strip_prefix sep []) as [r|] eqn:E; [|done].
    apply strip_prefix_spec in E. intros [= <- <-]. exact E.
  - destruct (strip_prefix sep (c :: s)) as [r|] eqn:E.
    + apply strip_prefix_spec in E. intros [= <- <-]. exact E.
    + destruct (find_sub sep s) as [[b' a']|]; [|done].
      intros [= <- <-]. cbn [app]. f_equal. by apply IH.
Qed.

(** The text before the leftmost occurrence has no occurrence. *)
Lemma find_sub_before (sep s b a : str) :
  sep ≠ [] → find_sub sep s = Some (b, a) → find_sub sep b = None.
Proof.
  intros Hsep. revert b. induction s as [|c s IH]; intros b; rewrite find_sub_eq.
  - destruct (strip_prefix sep []) as [r|] eqn:E; [|done].
    apply strip_prefix_spec in E. by destruct sep.
  - destruct (strip_prefix sep (c :: s)) as [r|] eqn:E.
    + intros [= <- <-]. by destruct sep.
    + destruct (find_sub sep s) as [[b' a']|] eqn:Ef; [|done].
      intros [= <- <-]. rewrite find_sub_eq.
      destruct (strip_prefix sep (c :: b')) as [r|] eqn:E2.
      * apply (strip_prefix_app _ _ _ (sep ++ a')) in E2.
        apply find_sub_spec in Ef. cbn [app] in E2.
        rewrite <- Ef in E2. congruence.
      * by rewrite (IH b').
Qed.

Lemma find_sub_app (sep p q : str) : is_Some (find_sub sep (p ++ sep ++ q)).
Proof.
  induction p as [|c p IH]; rewrite find_sub_eq; cbn [app].
  - by rewrite (proj2 (strip_prefix_spec sep (sep ++ q) q)).
  - destruct (strip_prefix sep (c :: p ++ sep ++ q)); [done|].
    destruct IH as [[b a] ->]. done.
Qed.

Lemma find_sub_infix (sep x y z : str) :
  find_sub sep (x ++ y ++ z) = None → find_sub sep y = None.
Proof.
  intros H. destruct (find_sub sep y) as [[b a]|] eqn:E; [|done].
  apply find_sub_spec in E. subst y.
  destruct (find_sub_app sep (x ++ b) (a ++ z)) as [r Hr].
  rewrite <- !app_assoc in Hr. rewrite <- !app_assoc in H. congruence.
Qed.

Lemma find_sub_strip (sep s : str) :
  find_sub sep s = None → find_sub sep (strip s) = None.
Proof.
  intros H. unfold strip.
  destruct (lstrip_split s) as (ws1 & E1 & _).
  destruct (rstrip_split (lstrip s)) as (ws2 & E2 & _).
  rewrite E2 in E1. rewrite E1 in H. by apply find_sub_infix in H.
Qed.

Lemma first_piece_free (sep s : str) :
  sep ≠ [] → find_sub sep (first_piece sep s) = None.
Proof.
  intros Hsep. unfold first_piece.
  destruct (find_sub sep s) as [[b a]|] eqn:E; [|done].
  by eapply find_sub_before.
Qed.

(** The first two pieces of a split. *)
Lemma split_first (sep s : str) (fuel : nat) :
  split_str_from sep (S fuel) s !! 0%nat = Some (first_piece sep s).
Proof.
  cbn [split_str_from]. unfold first_piece.
  by destruct (find_sub sep s) as [[b a]|].
Qed.

Lemma split_second (sep s b a : str) (fuel : nat) :
  find_sub sep s = Some (b, a) →
  split_str_from sep (S (S fuel)) s !! 1%nat = Some (first_piece sep a).
Proof.
  intros E. change (split_str_from sep (S (S fuel)) s)
    with (match find_sub sep s with
          | Some (before, after) =>
            before :: split_str_from sep (S fuel) after
          | None => [s]
          end).
  rewrite E. apply (split_first sep a fuel).
Qed.

Lemma find_sub_length (sep s b a : str) :
  sep ≠ [] → find_sub sep s = Some (b, a) → ∃ n, length s = S n.
Proof.
  intros Hsep E%find_sub_spec. destruct s as [|x s]; [|by eexists].
  destruct sep; [done|]. by destruct b.
Qed.

Lemma json_fence_fence : json_fence = fence ++ u "json".
Proof. reflexivity. Qed.

Lemma fence_not_nil : fence ≠ [].
Proof. discriminate. Qed.

Lemma json_fence_not_nil : json_fence ≠ [].
Proof. discriminate. Qed.

Lemma no_fence_no_json_fence (s : str) :
  find_sub fence s = None → find_sub json_fence s = None.
Proof.
  intros H. destruct (find_sub json_fence s) as [[b a]|] eqn:E; [|done].
  apply find_sub_spec in E. subst s.
  destruct (find_sub_app fence b (u "json" ++ a)) as [r Hr].
  rewrite json_fence_fence, <- app_assoc in H. congruence.
Qed.

(** What [x.split(sep)[1].split("```")[0].strip()] gives when [sep]
    occurs in [x]. *)
Lemma fenced_part (sep s b a : str) :
  sep ≠ [] → find_sub sep s = Some (b, a) →
  match py_index (split_str sep s) 1 with
  | Some part =>
    match py_index (split_str fence part) 0 with
    | Some inner => Some (strip inner)
    | None => None
    end
  | None => None
  end
  = Some (strip (first_piece fence (first_piece sep a))).
Proof.
  intros Hsep E.
  assert (py_index (split_str sep s) 1 = Some (first_piece sep a)) as ->.
  { unfold split_str. destruct (find_sub_length _ _ _ _ Hsep E) as [n ->].
    exact (split_second sep s b a n E). }
  assert (py_index (split_str fence (first_piece sep a)) 0
          = Some (first_piece fence (first_piece sep a))) as ->; [|done].
  apply split_first.
Qed.

(** X19.  The text [extract_atoms_with_claude] hands to [json.loads] is
    always defined (the two indexings never raise), is trimmed and contains
    no fence of three backquotes; when the trimmed answer has no fence it is
    that answer itself. *)
Theorem json_text_has_no_fence (text : str) :
  ∃ r, json_text text = Some r
       ∧ contains_str fence r = false
       ∧ trimmed r
       ∧ (contains_str fence (strip text) = false → r = strip text).
Proof.
  unfold json_text, contains_str, trimmed.
  destruct (find_sub json_fence (strip text)) as [[b a]|] eqn:Ej.
  - rewrite (fenced_part _ _ _ _ json_fence_not_nil Ej).
    eexists. split; [done|].
    rewrite find_sub_strip by apply first_piece_free, fence_not_nil.
    split; [done|]. split; [apply strip_idemp|].
    destruct (find_sub fence (strip text)) eqn:Ef; [done|].
    apply no_fence_no_json_fence in Ef. congruence.
  - destruct (find_sub fence (strip text)) as [[b a]|] eqn:Ef.
    + rewrite (fenced_part _ _ _ _ fence_not_nil Ef).
      eexists. split; [done|].
      rewrite find_sub_strip by apply first_piece_free, fence_not_nil.
      split; [done|]. split; [apply strip_idemp|done].
    + eexists. split; [done|]. rewrite Ef.
      split; [done|]. split; [apply strip_idemp|done].
Qed.

(** Skipping a text that cannot start an occurrence. *)
Lemma find_sub_skip (c : char) (sep pre s : str) :
  Forall (λ x, x ≠ c) pre →
  find_sub (c :: sep) (pre ++ s)
  = match find_sub (c :: sep) s with
    | Some (b, a) => Some (pre ++ b, a)
    | None => None
    end.
Proof.
  intros H. induction H as [|x pre Hx _ IH].
  - cbn [app]. by destruct (find_sub (c :: sep) s) as [[b a]|].
  - cbn [app]. rewrite find_sub_eq, strip_prefix_head by done.
    rewrite IH. by destruct (find_sub (c :: sep) s) as [[b a]|].
Qed.

Lemma find_sub_here (sep s : str) : find_sub sep (sep ++ s) = Some ([], s).
Proof.
  rewrite find_sub_eq. by rewrite (proj2 (strip_prefix_spec sep (sep ++ s) s)).
Qed.

Lemma find_sub_none (c : char) (sep s : str) :
  Forall (λ x, x ≠ c) s → find_sub (c :: sep) s = None.
Proof.
  intros H. rewrite <- (app_nil_r s), find_sub_skip by done. done.
Qed.

Lemma first_piece_closed (body post : str) :
  Forall (λ x, x ≠ backquote) body →
  first_piece fence (body ++ fence ++ post) = body.
Proof.
  intros H. unfold first_piece.
  change fence with (backquote :: [backquote; backquote]) at 1.
  rewrite find_sub_skip by done.
  change (backquote :: [backquote; backquote]) with fence.
  by rewrite find_sub_here, app_nil_r.
Qed.

Lemma first_piece_plain (body : str) :
  Forall (λ x, x ≠ backquote) body → first_piece fence body = body.
Proof.
  intros H. unfold first_piece.
  change fence with (backquote :: [backquote; backquote]).
  by rewrite find_sub_none.
Qed.

(** After a closing fence followed by text without backquotes, the next
    opening fence can only be the closing fence itself. *)
Lemma json_fence_after (post : str) :
  Forall (λ x, x ≠ backquote) post →
  first_piece json_fence (fence ++ post) = []
  ∨ first_piece json_fence (fence ++ post) = fence ++ post.
Proof.
  intros H. unfold first_piece.
  destruct (find_sub json_fence (fence ++ post)) as [[b a]|] eqn:E; [|by right].
  left. revert E. rewrite find_sub_eq.
  destruct (strip_prefix json_fence (fence ++ post)); [by intros [= <- _]|].
  change (fence ++ post) with (backquote :: backquote :: backquote :: post).
  cbv beta iota. rewrite find_sub_eq.
  assert (strip_prefix json_fence (backquote :: backquote :: post) = None)
    as ->.
  { destruct H as [|x post Hx _]; [done|].
    change json_fence
      with (backquote :: backquote :: backquote :: u "json").
    cbn [strip_prefix]. unfold chr_eqb. rewrite !N.eqb_refl.
    by rewrite (proj2 (N.eqb_neq x backquote)). }
  cbv beta iota. rewrite find_sub_eq.
  assert (strip_prefix json_fence (backquote :: post) = None) as ->.
  { destruct H as [|x post Hx _]; [done|].
    change json_fence
      with (backquote :: backquote :: backquote :: u "json").
    cbn [strip_prefix]. unfold chr_eqb. rewrite !N.eqb_refl.
    by rewrite (proj2 (N.eqb_neq x backquote)). }
  cbv beta iota.
  change json_fence with (backquote :: (backquote :: backquote :: u "json")).
  by rewrite (find_sub_none backquote _ post).
Qed.

(** X20.  An answer made of text without backquotes, a fence opened with
    three backquotes and the word json, a body without backquotes, a closing
    fence and again text without backquotes: the text handed to
    [json.loads] is the trimmed body. *)
Theorem json_text_of_fenced_answer (text pre body post : str) :
  strip text = pre ++ json_fence ++ body ++ fence ++ post →
  Forall (λ x, x ≠ backquote) pre →
  Forall (λ x, x ≠ backquote) body →
  Forall (λ x, x ≠ backquote) post →
  json_text text = Some (strip body).
Proof.
  intros E Hpre Hbody Hpost. unfold json_text, contains_str. rewrite E.
  assert (find_sub json_fence (pre ++ json_fence ++ body ++ fence ++ post)
          = Some (pre, body ++ fence ++ post)) as Ej.
  { change json_fence with (backquote :: (backquote :: backquote :: u "json"))
      at 1.
    rewrite find_sub_skip by done.
    change (backquote :: (backquote :: backquote :: u "json")) with json_fence.
    by rewrite find_sub_here, app_nil_r. }
  rewrite Ej, (fenced_part _ _ _ _ json_fence_not_nil Ej). do 2 f_equal.
  assert (first_piece json_fence (body ++ fence ++ post) = body
          ∨ first_piece json_fence (body ++ fence ++ post)
            = body ++ fence ++ post) as [-> | ->].
  { pose proof (json_fence_after post Hpost) as H. revert H.
    unfold first_piece.
    change json_fence with (backquote :: (backquote :: backquote :: u "json")).
    rewrite (find_sub_skip backquote _ body) by done.
    destruct (find_sub _ (fence ++ post)) as [[b a]|] eqn:Ef; [|by right].
    intros [->|Hb]; [left; by rewrite app_nil_r|].
    apply find_sub_spec in Ef. rewrite Hb in Ef.
    apply (f_equal length) in Ef. rewrite !length_app in Ef.
    cbn [length] in Ef. exfalso. clear -Ef.
    assert (∀ n m k : nat, n = n + (S m + k) → False)%nat as Harith by lia.
    exact (Harith _ _ _ Ef). }
  - by apply first_piece_plain.
  - by apply first_piece_closed.
Qed.

End JsonText.

Lemma json_text_of_fenced_answer_witness :
  json_text (u " Here it is: ```json [1, 2] ``` bye ") = Some (u "[1, 2]").
Proof.
  apply (json_text_of_fenced_answer _ (u "Here it is: ") (u " [1, 2] ")
           (u " bye")).
  - vm_compute. reflexivity.
  - by apply Forall_forall; intros x Hx%list_elem_of_In; vm_compute in Hx;
      intuition subst; discriminate.
  - by apply Forall_forall; intros x Hx%list_elem_of_In; vm_compute in Hx;
      intuition subst; discriminate.
  - by apply Forall_forall; intros x Hx%list_elem_of_In; vm_compute in Hx;
      intuition subst; discriminate.
Defined.
